(** * eotel: the correlation handle, embedded and verified

    The repository ships the handle twice: [src/eotel.go] (methods
    [FromContext], [RecoverPanic] on the handle, no nil guards) and the
    revised handle file (package-level [FromContext], [Noop], [Safe],
    nil guards, span status).  Both are embedded below, each in a module
    of its own ([EotelGo] and [Revised]), over one shared model of the
    collaborators (tracer, zap logger, meter, exporter, gin, clock).

    Go pointers [*Eotel] are addresses into a heap of handle records;
    [nil] is [None].  A Go panic and [os.Exit] are outcomes of the
    computation, next to the normal return. *)

From Stdlib Require Import ZArith String Ascii List Sorted Permutation Lia.
From Stdlib Require Import OrderedTypeEx.
From stdpp Require Import base option list strings gmap pretty.

Local Open Scope string_scope.
Local Open Scope Z_scope.
Local Open Scope list_scope.

(** ** Values crossing the API *)

(** Go's [error] interface: [nil], or a value whose [Error()] is the text. *)
Definition error := option string.

(** The [any] values handed to [WithField] and to [panic]. *)
Inductive any : Type :=
  | AnyNil
  | AnyString (s : string)
  | AnyInt (z : Z)
  | AnyBool (b : bool).

(** [fmt.Sprintf("%v", value)]. *)
Definition Sprintf_v (value : any) : string :=
  match value with
  | AnyNil => "<nil>"
  | AnyString s => s
  | AnyInt z => pretty z
  | AnyBool true => "true"
  | AnyBool false => "false"
  end.

(** [zap.Field], by constructor: [zap.String], [zap.Any], [zap.Error]. *)
Inductive Field : Type :=
  | zap_String (key val : string)
  | zap_Any (key : string) (value : any)
  | zap_Error (msg : string).

Definition Field_key (f : Field) : string :=
  match f with
  | zap_String k _ => k
  | zap_Any k _ => k
  | zap_Error _ => "error"
  end.

(** [attribute.KeyValue].  The float of [duration_ms] is
    [time.Since(start).Seconds() * 1000]; it is kept as the elapsed
    nanoseconds it is computed from. *)
Inductive AttrValue : Type :=
  | StringValue (s : string)
  | Float64MsValue (elapsed_ns : Z).

Record KeyValue : Type := mkKV { Key : string; Value : AttrValue }.

Definition attribute_String (k v : string) : KeyValue := mkKV k (StringValue v).
Definition attribute_Float64 (k : string) (elapsed_ns : Z) : KeyValue :=
  mkKV k (Float64MsValue elapsed_ns).

(** ** config.go *)

Record Config : Type := mkConfig {
  ServiceName : string;
  JobName : string;
  OtelCollector : string;
  EnableTracing : bool;
  EnableMetrics : bool;
  EnableSentry : bool;
  EnableLoki : bool;
  SentryDSN : string;
  LokiURL : string
}.

(** ** Collaborators *)

(** [loc]: the address of a handle, a non-nil [*Eotel].  [SpanRef]: a
    non-nil [trace.Span], the index of the span in the span table. *)
Abbreviation loc := nat (only parsing).
Abbreviation SpanRef := nat (only parsing).

(** [context.Context], reduced to the two values this package reads from
    it: the active span and the value under [loggerCtxKey{}].  The latter
    is absent ([None]), a typed nil pointer ([Some None]) or a handle. *)
Record Context : Type := mkContext {
  ctx_span : option SpanRef;
  ctx_logger : option (option loc)
}.

Definition context_Background : Context := mkContext None None.

(** Calls a span receives, in order. *)
Inductive SpanCall : Type :=
  | SetAttributes (kvs : list KeyValue)
  | RecordError (msg : string)
  | SetStatusError (description : string)
  | AddEvent (name : string) (kvs : list KeyValue)
  | End.

(** A span as the tracer made it.  Its span id is its index in the span
    table; [sp_trace] is the trace it belongs to. *)
Record Span : Type := mkSpan {
  sp_name : string;
  sp_trace : nat;
  sp_parent : option SpanRef;
  sp_calls : list SpanCall
}.

Inductive Logger : Type := zap_L | zap_NewNop.
Inductive Tracer : Type := otel_Tracer (service : string).
Inductive Meter : Type := otel_Meter (service : string).
Inductive Int64Counter : Type := counter_of (m : Meter) (name : string).
Inductive Float64Histogram : Type := histogram_of (m : Meter) (name : string).

(** Modelled from the spec: the implementation of the [Exporter]
    interface is not among the sources.  Following the spec, [Send]
    enqueues a log entry on the export queue without blocking and
    [CaptureError] forwards to the error reporter of sentry.go. *)
Inductive Exporter : Type := queue_exporter.

(** ** The handle (struct [Eotel]) *)

Record Eotel : Type := mkEotel {
  ctx : Context;
  logger : option Logger;
  tracer : option Tracer;
  meter : option Meter;
  span : option SpanRef;
  logCounter : option Int64Counter;
  durationHist : option Float64Histogram;
  fields : list Field;
  attrs : list KeyValue;
  err : error;
  name : string;
  start : Z;
  exporter : option Exporter
}.

Definition set_ctx (c : Context) (l : Eotel) : Eotel :=
  mkEotel c (logger l) (tracer l) (meter l) (span l) (logCounter l)
    (durationHist l) (fields l) (attrs l) (err l) (name l) (start l) (exporter l).
Definition set_span (s : option SpanRef) (l : Eotel) : Eotel :=
  mkEotel (ctx l) (logger l) (tracer l) (meter l) s (logCounter l)
    (durationHist l) (fields l) (attrs l) (err l) (name l) (start l) (exporter l).
Definition set_fields (fs : list Field) (l : Eotel) : Eotel :=
  mkEotel (ctx l) (logger l) (tracer l) (meter l) (span l) (logCounter l)
    (durationHist l) fs (attrs l) (err l) (name l) (start l) (exporter l).
Definition set_attrs (kvs : list KeyValue) (l : Eotel) : Eotel :=
  mkEotel (ctx l) (logger l) (tracer l) (meter l) (span l) (logCounter l)
    (durationHist l) (fields l) kvs (err l) (name l) (start l) (exporter l).
Definition set_err (e : error) (l : Eotel) : Eotel :=
  mkEotel (ctx l) (logger l) (tracer l) (meter l) (span l) (logCounter l)
    (durationHist l) (fields l) (attrs l) e (name l) (start l) (exporter l).
Definition set_name (n : string) (l : Eotel) : Eotel :=
  mkEotel (ctx l) (logger l) (tracer l) (meter l) (span l) (logCounter l)
    (durationHist l) (fields l) (attrs l) (err l) n (start l) (exporter l).

(** ** loki.go and the observable effects *)

Record LokiEntry : Type := mkLokiEntry {
  Labels : gmap string string;
  Message : string
}.

Record LogLine : Type := mkLogLine {
  ll_level : string;
  ll_msg : string;
  ll_fields : list Field
}.

Inductive MetricCall : Type :=
  | CounterAdd (c : Int64Counter) (n : Z) (level : string)
  | HistogramRecord (h : Float64Histogram) (elapsed_ns : Z) (level : string).

Record SentryEvent : Type := mkSentryEvent {
  se_err : string;
  se_tags : gmap string string;
  se_extras : gmap string string
}.

Inductive Abort : Type :=
  | AbortWithStatus (code : Z)
  | AbortWithStatusJSON (code : Z) (key val : string).

(** Everything outside the handle that the package reads or writes. *)
Record World : Type := mkWorld {
  globalCfg : Config;
  heap : list Eotel;            (* the allocated handles *)
  spans : list Span;            (* spans started so far, by span id *)
  now : Z;                      (* what [time.Now()] reads, in ns *)
  zap_out : list LogLine;       (* lines written through zap *)
  stdout : list string;         (* [fmt.Printf] *)
  logChan : list LokiEntry;     (* the export queue, capacity 100 *)
  loki_status : option Z;       (* what the Loki endpoint answers; None: transport error *)
  loki_posts : list LokiEntry;  (* HTTP posts made by [sendLoki] *)
  sentry : list SentryEvent;    (* exceptions captured *)
  metrics : list MetricCall;    (* counter and histogram updates *)
  aborts : list Abort           (* what the request was aborted with *)
}.

Definition set_heap (hp : list Eotel) (w : World) : World :=
  mkWorld (globalCfg w) hp (spans w) (now w) (zap_out w) (stdout w) (logChan w)
    (loki_status w) (loki_posts w) (sentry w) (metrics w) (aborts w).
Definition set_spans (ss : list Span) (w : World) : World :=
  mkWorld (globalCfg w) (heap w) ss (now w) (zap_out w) (stdout w) (logChan w)
    (loki_status w) (loki_posts w) (sentry w) (metrics w) (aborts w).
Definition set_zap_out (ls : list LogLine) (w : World) : World :=
  mkWorld (globalCfg w) (heap w) (spans w) (now w) ls (stdout w) (logChan w)
    (loki_status w) (loki_posts w) (sentry w) (metrics w) (aborts w).
Definition set_stdout (ls : list string) (w : World) : World :=
  mkWorld (globalCfg w) (heap w) (spans w) (now w) (zap_out w) ls (logChan w)
    (loki_status w) (loki_posts w) (sentry w) (metrics w) (aborts w).
Definition set_logChan (q : list LokiEntry) (w : World) : World :=
  mkWorld (globalCfg w) (heap w) (spans w) (now w) (zap_out w) (stdout w) q
    (loki_status w) (loki_posts w) (sentry w) (metrics w) (aborts w).
Definition set_loki_posts (ps : list LokiEntry) (w : World) : World :=
  mkWorld (globalCfg w) (heap w) (spans w) (now w) (zap_out w) (stdout w) (logChan w)
    (loki_status w) ps (sentry w) (metrics w) (aborts w).
Definition set_sentry (es : list SentryEvent) (w : World) : World :=
  mkWorld (globalCfg w) (heap w) (spans w) (now w) (zap_out w) (stdout w) (logChan w)
    (loki_status w) (loki_posts w) es (metrics w) (aborts w).
Definition set_metrics (ms : list MetricCall) (w : World) : World :=
  mkWorld (globalCfg w) (heap w) (spans w) (now w) (zap_out w) (stdout w) (logChan w)
    (loki_status w) (loki_posts w) (sentry w) ms (aborts w).
Definition set_aborts (ab : list Abort) (w : World) : World :=
  mkWorld (globalCfg w) (heap w) (spans w) (now w) (zap_out w) (stdout w) (logChan w)
    (loki_status w) (loki_posts w) (sentry w) (metrics w) ab.

(** ** Computations: normal return, panic, or process exit *)

Inductive Outcome (A : Type) : Type :=
  | Ok (a : A) (w : World)
  | Panicked (v : any) (w : World)
  | Exited (code : Z) (w : World).
Arguments Ok {A} a w.
Arguments Panicked {A} v w.
Arguments Exited {A} code w.

Definition M (A : Type) : Type := World -> Outcome A.

Definition ret {A} (a : A) : M A := fun w => Ok a w.

Definition bind {A B} (m : M A) (k : A -> M B) : M B :=
  fun w =>
    match m w with
    | Ok a w' => k a w'
    | Panicked v w' => Panicked v w'
    | Exited c w' => Exited c w'
    end.

#[global] Instance M_ret : MRet M := @ret.
#[global] Instance M_bind : MBind M := fun A B k m => bind m k.

(** The world an outcome leaves behind. *)
Definition world_of {A} (o : Outcome A) : World :=
  match o with
  | Ok _ w => w
  | Panicked _ w => w
  | Exited _ w => w
  end.

Definition returns {A} (o : Outcome A) : bool :=
  match o with Ok _ _ => true | _ => false end.

Definition panics {A} (o : Outcome A) : bool :=
  match o with Panicked _ _ => true | _ => false end.

(** The runtime error of a nil dereference or of a method call through a
    nil interface. *)
Definition nil_dereference : any :=
  AnyString "runtime error: invalid memory address or nil pointer dereference".

Definition panic {A} (v : any) : M A := fun w => Panicked v w.
Definition os_Exit {A} (code : Z) : M A := fun w => Exited code w.

Definition get_world : M World := fun w => Ok w w.
Definition put_world (f : World -> World) : M unit := fun w => Ok tt (f w).

Definition time_Now : M Z := fun w => Ok (now w) w.
Definition cfg : M Config := fun w => Ok (globalCfg w) w.

(** Reading and writing through a [*Eotel]. *)
Definition load (l : option loc) : M Eotel :=
  fun w =>
    match l with
    | None => Panicked nil_dereference w
    | Some p =>
        match heap w !! p with
        | Some h => Ok h w
        | None => Panicked nil_dereference w
        end
    end.

Definition store (l : option loc) (f : Eotel -> Eotel) : M unit :=
  fun w =>
    match l with
    | None => Panicked nil_dereference w
    | Some p =>
        match heap w !! p with
        | Some h => Ok tt (set_heap (<[p := f h]> (heap w)) w)
        | None => Panicked nil_dereference w
        end
    end.

(** [&Eotel{...}]: a fresh address. *)
Definition alloc (h : Eotel) : M (option loc) :=
  fun w => Ok (Some (length (heap w))) (set_heap (heap w ++ [h]) w).

(** ** The tracer (go.opentelemetry.io/otel/trace) *)

(** [tracer.Start(ctx, name)]: a new span with a fresh span id, child of
    the span the context carries and in that span's trace; a context
    without a span starts a new trace.  The returned context carries the
    new span.  Through a nil [trace.Tracer] the call panics. *)
Definition tracer_Start (t : option Tracer) (c : Context) (nm : string)
  : M (Context * option SpanRef) :=
  fun w =>
    match t with
    | None => Panicked nil_dereference w
    | Some _ =>
        let id := length (spans w) in
        let tr := match ctx_span c ≫= (fun s => spans w !! s) with
                  | Some parent => sp_trace parent
                  | None => id
                  end in
        Ok (mkContext (Some id) (ctx_logger c), Some id)
           (set_spans (spans w ++ [mkSpan nm tr (ctx_span c) []]) w)
    end.

Definition add_call (c : SpanCall) (s : Span) : Span :=
  mkSpan (sp_name s) (sp_trace s) (sp_parent s) (sp_calls s ++ [c]).

(** A method call on a [trace.Span] value; on nil it panics. *)
Definition span_call (s : option SpanRef) (c : SpanCall) : M unit :=
  fun w =>
    match s with
    | None => Panicked nil_dereference w
    | Some i => Ok tt (set_spans (alter (add_call c) i (spans w)) w)
    end.

(** [trace.SpanContext]: the ids, [None] for the zero value. *)
Record SpanContext : Type := mkSpanContext {
  TraceID : option nat;
  SpanID : option nat
}.

Definition empty_SpanContext : SpanContext := mkSpanContext None None.

Definition span_SpanContext (s : option SpanRef) : M SpanContext :=
  fun w =>
    match s with
    | None => Panicked nil_dereference w
    | Some i =>
        match spans w !! i with
        | Some sp => Ok (mkSpanContext (Some (sp_trace sp)) (Some i)) w
        | None => Ok empty_SpanContext w
        end
    end.

(** [TraceID().String()] and [SpanID().String()]; ids are non-zero, the
    zero value prints as zeros. *)
Definition TraceID_String (sc : SpanContext) : string :=
  match TraceID sc with
  | Some n => pretty (S n)
  | None => "00000000000000000000000000000000"
  end.
Definition SpanID_String (sc : SpanContext) : string :=
  match SpanID sc with
  | Some n => pretty (S n)
  | None => "0000000000000000"
  end.

(** [trace.SpanFromContext]: never nil; without a span in the context it
    is the no-op span, which ignores every call. *)
Inductive SpanVal : Type := noopSpan | liveSpan (s : SpanRef).

Definition trace_SpanFromContext (c : Context) : SpanVal :=
  match ctx_span c with
  | Some s => liveSpan s
  | None => noopSpan
  end.

Definition SpanVal_call (v : SpanVal) (c : SpanCall) : M unit :=
  match v with
  | noopSpan => mret tt
  | liveSpan s => span_call (Some s) c
  end.

(** ** zap *)

Definition zap_write (lg : Logger) (level msg : string) (fs : list Field) : M unit :=
  match lg with
  | zap_L => put_world (fun w => set_zap_out (zap_out w ++ [mkLogLine level msg fs]) w)
  | zap_NewNop => mret tt
  end.

(** zap's [Logger.Fatal] writes the entry and then calls [os.Exit(1)]. *)
Definition zap_Fatal (lg : Logger) (msg : string) (fs : list Field) : M unit :=
  zap_write lg "fatal" msg fs;; os_Exit 1.

(** ** Metric instruments *)

Definition otel_Tracer_of (c : Config) : Tracer := otel_Tracer (ServiceName c).
Definition otel_Meter_of (c : Config) : Meter := otel_Meter (ServiceName c).

Definition initMetrics (m : Meter) : option Int64Counter * option Float64Histogram :=
  (Some (counter_of m "log_total"), Some (histogram_of m "log_duration_ms")).

Definition counter_Add (c : option Int64Counter) (n : Z) (level : string) : M unit :=
  match c with
  | None => panic nil_dereference
  | Some i => put_world (fun w => set_metrics (metrics w ++ [CounterAdd i n level]) w)
  end.

Definition histogram_Record (h : option Float64Histogram) (elapsed_ns : Z) (level : string)
  : M unit :=
  match h with
  | None => panic nil_dereference
  | Some i => put_world (fun w => set_metrics (metrics w ++ [HistogramRecord i elapsed_ns level]) w)
  end.

(** ** sentry.go *)

Definition CaptureError (e : error) (tags extras : gmap string string) : M unit :=
  c ← cfg;
  match e with
  | None => mret tt
  | Some msg =>
      if negb (EnableSentry c) then mret tt
      else put_world (fun w => set_sentry (sentry w ++ [mkSentryEvent msg tags extras]) w)
  end.

(** ** loki.go *)

Definition logChan_capacity : nat := 100.

(** [sendLoki]: the returned error is [None] on success. *)
Definition sendLoki (entry : LokiEntry) : M error :=
  c ← cfg;
  if negb (EnableLoki c) then mret None
  else
    w ← get_world;
    put_world (fun w => set_loki_posts (loki_posts w ++ [entry]) w);;
    match loki_status w with
    | None => mret (Some "http: post failed")
    | Some code =>
        if 300 <=? code then mret (Some ("loki response: " +:+ pretty code))
        else mret None
    end.

(** One turn of the worker loop [for entry := range logChan]: take the
    oldest entry and send it, dropping the error. *)
Definition worker_step : M unit :=
  w ← get_world;
  match logChan w with
  | [] => mret tt
  | entry :: rest =>
      put_world (set_logChan rest);;
      _ ← sendLoki entry;
      mret tt
  end.

(** ** The exporter *)

(** Modelled from the spec: [Exporter.Send], absent from the sources,
    builds the log entry from the labels of the call and enqueues it
    without blocking; a full queue drops the entry. *)
Definition Exporter_Send (e : option Exporter) (level msg traceID spanID : string)
  : M unit :=
  match e with
  | None => panic nil_dereference
  | Some queue_exporter =>
      c ← cfg;
      let entry :=
        mkLokiEntry
          (list_to_map [("level", level); ("trace_id", traceID); ("span_id", spanID);
                        ("job", JobName c); ("service", ServiceName c)])
          msg in
      put_world (fun w =>
        if decide (length (logChan w) < logChan_capacity)%nat
        then set_logChan (logChan w ++ [entry]) w
        else w)
  end.

(** Modelled from the spec: [Exporter.CaptureError], absent from the
    sources, forwards to the error reporter [CaptureError] of sentry.go. *)
Definition Exporter_CaptureError (e : option Exporter) (er : error)
    (tags extras : gmap string string) : M unit :=
  match e with
  | None => panic nil_dereference
  | Some queue_exporter => CaptureError er tags extras
  end.

(** ** gin *)

Record gin_Context : Type := mk_gin_Context { Request_Context : Context }.

Definition gin_abort (a : Abort) : M unit :=
  put_world (fun w => set_aborts (aborts w ++ [a]) w).

(** ** [sort.SliceStable] by key *)

(** The comparison handed to [sort.SliceStable]:
    [string(attrs[i].Key) < string(attrs[j].Key)], bytewise. *)
Definition key_less (a b : KeyValue) : bool := String.ltb (Key a) (Key b).

(** A stable sort is determined by its comparison: equal keys keep their
    order.  It is written as a stable insertion sort. *)
Fixpoint stable_insert (x : KeyValue) (l : list KeyValue) : list KeyValue :=
  match l with
  | [] => [x]
  | y :: l' => if key_less y x then y :: stable_insert x l' else x :: y :: l'
  end.

Fixpoint SliceStable (l : list KeyValue) : list KeyValue :=
  match l with
  | [] => []
  | x :: l' => stable_insert x (SliceStable l')
  end.

(** ** [defer] and [recover] *)

(** [defer d(); body]: the deferred call runs when the body returns and
    when it panics (not when the process exits).  A panic of the body goes
    on after the deferred call; a panic of the deferred call replaces it. *)
Definition defer_call {A} (d : M unit) (body : M A) : M A :=
  fun w =>
    match body w with
    | Ok a w1 =>
        match d w1 with
        | Ok _ w2 => Ok a w2
        | Panicked v w2 => Panicked v w2
        | Exited c w2 => Exited c w2
        end
    | Panicked v w1 =>
        match d w1 with
        | Ok _ w2 => Panicked v w2
        | Panicked v' w2 => Panicked v' w2
        | Exited c w2 => Exited c w2
        end
    | Exited c w1 => Exited c w1
    end.

(** [defer f(); body] for a closure [f] that begins with [recover()]:
    [f] receives the panic value, or nothing when the body returned, and
    the panic stops there; a panic of [f] itself goes on. *)
Definition defer_recover (f : option any -> M unit) (body : M unit) : M unit :=
  fun w =>
    match body w with
    | Ok _ w1 => f None w1
    | Panicked v w1 => f (Some v) w1
    | Exited c w1 => Exited c w1
    end.

(** What the web framework knows of the request, next to its context. *)
Record RequestInfo : Type := mkRequestInfo {
  Method : string;
  FullPath : string;
  URL_Path : string;
  ClientIP : string;
  UserAgent : string
}.

(** [eotelTimer]. *)
Record eotelTimer : Type := mk_eotelTimer {
  timer_name : string;
  timer_logger : option nat;
  timer_start : Z
}.

Definition set_globalCfg (c : Config) (w : World) : World :=
  mkWorld c (heap w) (spans w) (now w) (zap_out w) (stdout w) (logChan w)
    (loki_status w) (loki_posts w) (sentry w) (metrics w) (aborts w).

(** The worker goroutine of loki.go, run for [n] turns of its loop. *)
Fixpoint worker_run (n : nat) : M unit :=
  match n with
  | O => mret tt
  | S n' => worker_step;; worker_run n'
  end.

(** The [switch level] of [log]: the four severities write a line, ["fatal"]
    writes and exits, any other string writes nothing.  Through a nil
    [*zap.Logger] the method call panics. *)
Definition zap_switch (lg : option Logger) (level msg : string) (fs : list Field)
  : M unit :=
  if bool_decide (level ∈ ["info"; "error"; "debug"; "warn"]) then
    match lg with
    | Some z => zap_write z level msg fs
    | None => panic nil_dereference
    end
  else if bool_decide (level = "fatal") then
    match lg with
    | Some z => zap_Fatal z msg fs
    | None => panic nil_dereference
    end
  else mret tt.

(** The fields every log line starts with. *)
Definition synthesized_fields (c : Config) (sc : SpanContext) (level : string)
  : list Field :=
  [ zap_String "trace_id" (TraceID_String sc);
    zap_String "span_id" (SpanID_String sc);
    zap_String "job" (JobName c);
    zap_String "service" (ServiceName c);
    zap_String "level" level ].

(** The three attributes [endSpan] appends. *)
Definition synthesized_attrs (msg level : string) (elapsed_ns : Z) : list KeyValue :=
  [ attribute_String "log.message" msg;
    attribute_String "log.level" level;
    attribute_Float64 "duration_ms" elapsed_ns ].

(** ** Calls a client makes on a handle *)

Inductive Severity : Type := info | error_sev | debug | warn.

Definition severity_string (s : Severity) : string :=
  match s with
  | info => "info"
  | error_sev => "error"
  | debug => "debug"
  | warn => "warn"
  end.

Inductive Call : Type :=
  | CallWithField (key : string) (value : any)
  | CallWithFields (m : list (string * any))
  | CallWithError (e : error)
  | CallLog (sev : Severity) (msg : string)
  | CallFatal (msg : string).

Definition is_log (c : Call) : bool :=
  match c with CallLog _ _ => true | _ => false end.

(** The attributes a field call accumulates when its keys are not empty. *)
Definition field_attrs (m : list (string * any)) : list KeyValue :=
  map (fun kv => attribute_String kv.1 (Sprintf_v kv.2))
      (filter (fun kv => kv.1 ≠ "") m).

(** * The revised handle file *)

Module Revised.

Definition Noop (nm : string) : M (option loc) :=
  t ← time_Now;
  alloc {| ctx := context_Background; logger := Some zap_NewNop; tracer := None;
           meter := None; span := None; logCounter := None; durationHist := None;
           fields := []; attrs := []; err := None; name := nm; start := t;
           exporter := None |}.

Definition New (c : Context) (nm : string) : M (option loc) :=
  g ← cfg;
  let m := otel_Meter_of g in
  let '(lc, dh) := initMetrics m in
  t ← time_Now;
  alloc {| ctx := c; logger := Some zap_L; tracer := Some (otel_Tracer_of g);
           meter := Some m; span := None; logCounter := lc; durationHist := dh;
           fields := []; attrs := []; err := None; name := nm; start := t;
           exporter := None |}.

Definition Inject (c : Context) (lg : option loc) : Context :=
  mkContext (ctx_span c) (Some lg).

Definition FromContext (c : Context) (nm : string) : M (option loc) :=
  match ctx_logger c with
  | Some (Some p) => mret (Some p)
  | _ => Noop nm
  end.

Definition FromGin (c : gin_Context) (nm : string) : M (option loc) :=
  FromContext (Request_Context c) nm.

Definition Safe (l : option loc) : M (option loc) :=
  match l with
  | None => Noop "safe"
  | Some _ => mret l
  end.

Definition startSpanIfNeeded (l : option loc) : M unit :=
  h ← load l;
  match span h with
  | None =>
      r ← tracer_Start (tracer h) (ctx h) (name h);
      store l (set_ctx r.1);;
      store l (set_span r.2)
  | Some _ => mret tt
  end.

Definition endSpan (l : option loc) (msg level : string) : M unit :=
  match l with
  | None => mret tt
  | Some _ =>
      h ← load l;
      t ← time_Now;
      let durationMs := t - start h in
      store l (fun h => set_attrs (attrs h ++ synthesized_attrs msg level durationMs) h);;
      store l (fun h => set_attrs (SliceStable (attrs h)) h);;
      h ← load l;
      match span h with
      | Some _ =>
          span_call (span h) (SetAttributes (attrs h));;
          match err h with
          | Some e =>
              span_call (span h) (SetStatusError e);;
              span_call (span h) (RecordError e)
          | None => mret tt
          end;;
          span_call (span h) End
      | None => mret tt
      end;;
      match meter h with
      | Some _ =>
          counter_Add (logCounter h) 1 level;;
          histogram_Record (durationHist h) durationMs level
      | None => mret tt
      end
  end.

Definition log (l : option loc) (level msg : string) : M unit :=
  match l with
  | None => put_world (fun w => set_stdout (stdout w ++ ["[" +:+ level +:+ "] " +:+ msg]) w)
  | Some _ =>
      startSpanIfNeeded l;;
      h ← load l;
      sc ← match span h with
           | Some _ => span_SpanContext (span h)
           | None => mret empty_SpanContext
           end;
      g ← cfg;
      let fs := synthesized_fields g sc level ++ fields h in
      match logger h with
      | Some _ => zap_switch (logger h) level msg fs
      | None => mret tt
      end;;
      (if EnableLoki g && bool_decide (exporter h ≠ None)
       then Exporter_Send (exporter h) level msg (TraceID_String sc) (SpanID_String sc)
       else mret tt);;
      endSpan l msg level
  end.

Definition Info (l : option loc) (msg : string) : M unit := log l "info" msg.
Definition Error (l : option loc) (msg : string) : M unit := log l "error" msg.
Definition Debug (l : option loc) (msg : string) : M unit := log l "debug" msg.
Definition Warn (l : option loc) (msg : string) : M unit := log l "warn" msg.

Definition Fatal (l : option loc) (msg : string) : M unit :=
  log l "fatal" msg;;
  h ← load l;
  match span h with
  | Some _ => span_call (span h) End
  | None => mret tt
  end;;
  os_Exit 1.

Definition TraceName (l : option loc) (nm : string) : M (option loc) :=
  store l (set_name nm);; mret l.

Definition WithField (l : option loc) (key : string) (value : any) : M (option loc) :=
  match l with
  | None => Noop "WithField"
  | Some _ =>
      if bool_decide (key = "") then mret l
      else
        store l (fun h => set_fields (fields h ++ [zap_Any key value]) h);;
        store l (fun h => set_attrs (attrs h ++ [attribute_String key (Sprintf_v value)]) h);;
        mret l
  end.

(** [m] lists the entries of the Go map in the order [range] yields them. *)
Fixpoint WithFields_range (l : option loc) (m : list (string * any)) : M unit :=
  match m with
  | [] => mret tt
  | (k, v) :: m' => _ ← WithField l k v; WithFields_range l m'
  end.

Definition WithFields (l : option loc) (m : list (string * any)) : M (option loc) :=
  WithFields_range l m;; mret l.

Definition WithError (l : option loc) (e : error) : M (option loc) :=
  match e with
  | Some msg =>
      store l (set_err e);;
      store l (fun h => set_fields (fields h ++ [zap_Error msg]) h);;
      store l (fun h => set_attrs (attrs h ++ [attribute_String "error" msg]) h);;
      h ← load l;
      match exporter h with
      | Some _ => Exporter_CaptureError (exporter h) e ∅ {[ "error" := msg ]}
      | None => mret tt
      end
  | None => mret tt
  end;;
  mret l.

Definition Span_of (l : option loc) : M (option SpanRef) :=
  match l with
  | None => mret None
  | Some _ => h ← load l; mret (span h)
  end.

Definition SetSpanError (l : option loc) (e : error) : M unit :=
  h ← load l;
  match e, span h with
  | Some msg, Some _ => span_call (span h) (RecordError msg)
  | _, _ => mret tt
  end.

Definition Child (l : option loc) (nm : string) : M (option loc) :=
  match l with
  | None => Noop nm
  | Some _ =>
      h ← load l;
      g ← cfg;
      let tr := match tracer h with
                | None => otel_Tracer_of g
                | Some t => t
                end in
      r ← tracer_Start (Some tr) (ctx h) nm;
      t ← time_Now;
      alloc {| ctx := r.1; span := r.2; logger := logger h; tracer := Some tr;
               meter := meter h; logCounter := logCounter h;
               durationHist := durationHist h; exporter := exporter h;
               name := nm; start := t; fields := []; attrs := []; err := None |}
  end.

(** The closure [RecoverPanic] returns, run as a deferred call; [rec] is
    what [recover()] yields: the panic value, or nothing outside a panic. *)
Definition RecoverPanic (c : gin_Context) (rec : option any) : M unit :=
  match rec with
  | None => mret tt
  | Some r =>
      let msg := "panic: " +:+ Sprintf_v r in
      l0 ← FromGin c "panic";
      l1 ← Safe l0;
      lg ← WithError l1 (Some msg);
      Error lg "unhandled panic";;
      let sp := trace_SpanFromContext (Request_Context c) in
      SpanVal_call sp (RecordError msg);;
      SpanVal_call sp (SetStatusError msg);;
      gin_abort (AbortWithStatusJSON 500 "error" "internal server error")
  end.

(** A client call, and a sequence of them, on the handle [l]. *)
Definition call (l : option loc) (c : Call) : M unit :=
  match c with
  | CallWithField k v => _ ← WithField l k v; mret tt
  | CallWithFields m => _ ← WithFields l m; mret tt
  | CallWithError e => _ ← WithError l e; mret tt
  | CallLog info msg => Info l msg
  | CallLog error_sev msg => Error l msg
  | CallLog debug msg => Debug l msg
  | CallLog warn msg => Warn l msg
  | CallFatal msg => Fatal l msg
  end.

Fixpoint calls (l : option loc) (cs : list Call) : M unit :=
  match cs with
  | [] => mret tt
  | c :: cs' => call l c;; calls l cs'
  end.

(** The remaining methods of the revised handle file. *)

Definition Ctx (l : option loc) : M Context :=
  h ← load l; mret (ctx h).

Definition WithTracer (l : option loc) (nm : string) (fn : Context -> M error) : M error :=
  h ← load l;
  r ← tracer_Start (tracer h) (ctx h) nm;
  defer_call (span_call r.2 End) (fn r.1).

Definition SpanEvent (l : option loc) (nm : string) (kvs : list KeyValue) : M unit :=
  h ← load l;
  match span h with
  | Some _ => span_call (span h) (AddEvent nm kvs)
  | None => mret tt
  end.

Definition SetSpanAttr (l : option loc) (key : string) (value : any) : M unit :=
  h ← load l;
  match span h with
  | Some _ => span_call (span h) (SetAttributes [attribute_String key (Sprintf_v value)])
  | None => mret tt
  end.

Definition Start (l : option loc) (nm : string) : M eotelTimer :=
  t ← time_Now; mret (mk_eotelTimer nm l t).

Definition Stop (t : eotelTimer) : M unit :=
  n ← time_Now;
  SpanEvent (timer_logger t) (timer_name t)
    [attribute_Float64 "custom.duration_ms" (n - timer_start t)].

End Revised.

(** * src/eotel.go *)

Module EotelGo.

Definition New (c : Context) (nm : string) : M (option loc) :=
  g ← cfg;
  let m := otel_Meter_of g in
  let '(lc, dh) := initMetrics m in
  t ← time_Now;
  alloc {| ctx := c; logger := Some zap_L; tracer := Some (otel_Tracer_of g);
           meter := Some m; span := None; logCounter := lc; durationHist := dh;
           fields := []; attrs := []; err := None; name := nm; start := t;
           exporter := None |}.

Definition Inject (l : option loc) (c : Context) (lg : option loc) : Context :=
  mkContext (ctx_span c) (Some lg).

Definition FromContext (l : option loc) (c : Context) (nm : string) : M (option loc) :=
  match ctx_logger c with
  | Some lg => mret lg
  | None => New c nm
  end.

Definition FromGin (l : option loc) (c : gin_Context) (nm : string) : M (option loc) :=
  FromContext l (Request_Context c) nm.

Definition startSpanIfNeeded (l : option loc) : M unit :=
  h ← load l;
  match span h with
  | None =>
      r ← tracer_Start (tracer h) (ctx h) (name h);
      store l (set_ctx r.1);;
      store l (set_span r.2)
  | Some _ => mret tt
  end.

Definition endSpan (l : option loc) (msg level : string) : M unit :=
  h ← load l;
  t ← time_Now;
  let durationMs := t - start h in
  store l (fun h => set_attrs (attrs h ++ synthesized_attrs msg level durationMs) h);;
  store l (fun h => set_attrs (SliceStable (attrs h)) h);;
  h ← load l;
  match span h with
  | Some _ =>
      span_call (span h) (SetAttributes (attrs h));;
      match err h with
      | Some e => span_call (span h) (RecordError e)
      | None => mret tt
      end;;
      span_call (span h) End
  | None => mret tt
  end;;
  counter_Add (logCounter h) 1 level;;
  histogram_Record (durationHist h) durationMs level.

Definition log (l : option loc) (level msg : string) : M unit :=
  startSpanIfNeeded l;;
  h ← load l;
  sc ← span_SpanContext (span h);
  g ← cfg;
  let fs := synthesized_fields g sc level ++ fields h in
  zap_switch (logger h) level msg fs;;
  (if EnableLoki g
   then Exporter_Send (exporter h) level msg (TraceID_String sc) (SpanID_String sc)
   else mret tt);;
  endSpan l msg level.

Definition Info (l : option loc) (msg : string) : M unit := log l "info" msg.
Definition Error (l : option loc) (msg : string) : M unit := log l "error" msg.
Definition Debug (l : option loc) (msg : string) : M unit := log l "debug" msg.
Definition Warn (l : option loc) (msg : string) : M unit := log l "warn" msg.

Definition Fatal (l : option loc) (msg : string) : M unit :=
  log l "fatal" msg;;
  h ← load l;
  match span h with
  | Some _ => span_call (span h) End
  | None => mret tt
  end;;
  os_Exit 1.

Definition WithField (l : option loc) (key : string) (value : any) : M (option loc) :=
  store l (fun h => set_fields (fields h ++ [zap_Any key value]) h);;
  store l (fun h => set_attrs (attrs h ++ [attribute_String key (Sprintf_v value)]) h);;
  mret l.

Fixpoint WithFields_range (l : option loc) (m : list (string * any)) : M unit :=
  match m with
  | [] => mret tt
  | (k, v) :: m' => _ ← WithField l k v; WithFields_range l m'
  end.

Definition WithFields (l : option loc) (m : list (string * any)) : M (option loc) :=
  WithFields_range l m;; mret l.

Definition WithError (l : option loc) (e : error) : M (option loc) :=
  match e with
  | Some msg =>
      store l (set_err e);;
      store l (fun h => set_fields (fields h ++ [zap_Error msg]) h);;
      store l (fun h => set_attrs (attrs h ++ [attribute_String "error" msg]) h);;
      h ← load l;
      Exporter_CaptureError (exporter h) e ∅ {[ "error" := msg ]}
  | None => mret tt
  end;;
  mret l.

Definition Child (l : option loc) (nm : string) : M (option loc) :=
  h ← load l;
  r ← tracer_Start (tracer h) (ctx h) nm;
  t ← time_Now;
  alloc {| ctx := r.1; span := r.2; logger := logger h; tracer := tracer h;
           meter := meter h; start := t; exporter := exporter h;
           logCounter := None; durationHist := None; fields := []; attrs := [];
           err := None; name := "" |}.

Definition RecoverPanic (l : option loc) (c : gin_Context) (rec : option any) : M unit :=
  match rec with
  | None => mret tt
  | Some r =>
      let msg := "panic: " +:+ Sprintf_v r in
      lg ← FromGin l c "panic";
      let lg := match lg with None => l | Some _ => lg end in
      lg' ← WithError lg (Some msg);
      Error lg' "unhandled panic";;
      gin_abort (AbortWithStatus 500)
  end.

(** A client call, and a sequence of them, on the handle [l]. *)
Definition call (l : option loc) (c : Call) : M unit :=
  match c with
  | CallWithField k v => _ ← WithField l k v; mret tt
  | CallWithFields m => _ ← WithFields l m; mret tt
  | CallWithError e => _ ← WithError l e; mret tt
  | CallLog info msg => Info l msg
  | CallLog error_sev msg => Error l msg
  | CallLog debug msg => Debug l msg
  | CallLog warn msg => Warn l msg
  | CallFatal msg => Fatal l msg
  end.

Fixpoint calls (l : option loc) (cs : list Call) : M unit :=
  match cs with
  | [] => mret tt
  | c :: cs' => call l c;; calls l cs'
  end.

(** The remaining methods of src/eotel.go. *)

Definition Ctx (l : option loc) : M Context :=
  h ← load l; mret (ctx h).

Definition WithTracer (l : option loc) (nm : string) (fn : Context -> M unit) : M unit :=
  h ← load l;
  r ← tracer_Start (tracer h) (ctx h) nm;
  defer_call (span_call r.2 End) (fn r.1).

Definition SpanEvent (l : option loc) (nm : string) (kvs : list KeyValue) : M unit :=
  h ← load l;
  match span h with
  | Some _ => span_call (span h) (AddEvent nm kvs)
  | None => mret tt
  end.

Definition SetSpanAttr (l : option loc) (key : string) (value : any) : M unit :=
  h ← load l;
  match span h with
  | Some _ => span_call (span h) (SetAttributes [attribute_String key (Sprintf_v value)])
  | None => mret tt
  end.

Definition SetSpanError (l : option loc) (e : error) : M unit :=
  h ← load l;
  match e, span h with
  | Some msg, Some _ => span_call (span h) (RecordError msg)
  | _, _ => mret tt
  end.

Definition Start (l : option loc) (nm : string) : M eotelTimer :=
  t ← time_Now; mret (mk_eotelTimer nm l t).

Definition Stop (t : eotelTimer) : M unit :=
  n ← time_Now;
  SpanEvent (timer_logger t) (timer_name t)
    [attribute_Float64 "custom.duration_ms" (n - timer_start t)].

(** [Middleware] (the gin middleware shipped with sentry.go).  [next] is
    [c.Next()], the rest of the handler chain, which sees the request
    with the new context.  The statement [defer logger.RecoverPanic(c)]
    defers the call of [RecoverPanic] itself: at exit it builds the
    recovering closure and drops it without running it. *)
Definition Middleware (nm : string) (rq : RequestInfo) (c : gin_Context)
    (next : gin_Context -> M unit) : M unit :=
  g ← cfg;
  r ← tracer_Start (Some (otel_Tracer_of g)) (Request_Context c)
        (Method rq +:+ " " +:+ FullPath rq);
  defer_call (span_call r.2 End)
    (l ← New r.1 nm;
     l ← WithField l "method" (AnyString (Method rq));
     l ← WithField l "path" (AnyString (URL_Path rq));
     l ← WithField l "ip" (AnyString (ClientIP rq));
     l ← WithField l "ua" (AnyString (UserAgent rq));
     let c' := mk_gin_Context (Inject l r.1 l) in
     defer_call (mret tt) (next c')).

End EotelGo.

(** * Vocabulary of the statements *)

(** What [endSpan] sends to the span: the flush, the error when one is
    recorded, the end. *)
Definition end_calls (status : bool) (kvs : list KeyValue) (e : error) : list SpanCall :=
  [SetAttributes kvs]
  ++ match e with
     | Some m => if status then [SetStatusError m; RecordError m] else [RecordError m]
     | None => []
     end
  ++ [End].

Definition add_calls (cs : list SpanCall) (s : Span) : Span :=
  mkSpan (sp_name s) (sp_trace s) (sp_parent s) (sp_calls s ++ cs).

(** The attribute lists a span was flushed with, oldest first. *)
Definition flushes (cs : list SpanCall) : list (list KeyValue) :=
  omap (fun c => match c with SetAttributes kvs => Some kvs | _ => None end) cs.

Definition marks_error (cs : list SpanCall) : bool :=
  existsb (fun c => match c with SetStatusError _ => true | _ => false end) cs.

Definition records_error (cs : list SpanCall) : bool :=
  existsb (fun c => match c with RecordError _ => true | _ => false end) cs.

(** The calls a span has received so far. *)
Definition calls_of (w : World) (s : SpanRef) : list SpanCall :=
  match spans w !! s with
  | Some sp => sp_calls sp
  | None => []
  end.

Definition trace_of (w : World) (s : SpanRef) : option nat :=
  sp_trace <$> spans w !! s.

(** Sorted by key: no attribute is followed by one with a smaller key. *)
Definition key_le (a b : KeyValue) : Prop := key_less b a = false.

Definition keys (kvs : list KeyValue) : list string := map Key kvs.

Definition synthesized_keys : list string := ["log.message"; "log.level"; "duration_ms"].

(** Field calls: [WithField] and [WithFields]. *)
Definition is_field_call (c : Call) : bool :=
  match c with
  | CallWithField _ _ | CallWithFields _ => true
  | _ => false
  end.

(** The attributes and the fields a sequence of calls accumulates in the
    revised handle (empty keys are skipped). *)
Definition call_attrs (c : Call) : list KeyValue :=
  match c with
  | CallWithField k v => field_attrs [(k, v)]
  | CallWithFields m => field_attrs m
  | CallWithError (Some msg) => [attribute_String "error" msg]
  | _ => []
  end.

Definition field_fields (m : list (string * any)) : list Field :=
  map (fun kv => zap_Any kv.1 kv.2) (filter (fun kv => kv.1 ≠ "") m).

Definition call_fields (c : Call) : list Field :=
  match c with
  | CallWithField k v => field_fields [(k, v)]
  | CallWithFields m => field_fields m
  | CallWithError (Some msg) => [zap_Error msg]
  | _ => []
  end.

(** A handle whose metric instruments are set whenever its meter is. *)
Definition instruments_ok (h : Eotel) : Prop :=
  meter h ≠ None -> logCounter h ≠ None /\ durationHist h ≠ None.

(** ** Worlds and handles used as concrete inputs *)

Definition example_cfg : Config :=
  mkConfig "svc" "job" "collector:4317" true true true true "dsn" "http://loki".

Definition quiet_cfg : Config :=
  mkConfig "svc" "job" "collector:4317" true true false false "dsn" "http://loki".

Definition empty_world (c : Config) : World :=
  mkWorld c [] [] 1000 [] [] [] (Some 204) [] [] [] [].

(** The handle [New(context.Background(), nm)] makes at time 1000. *)
Definition fresh_handle (nm : string) : Eotel :=
  {| ctx := context_Background; logger := Some zap_L;
     tracer := Some (otel_Tracer "svc"); meter := Some (otel_Meter "svc");
     span := None;
     logCounter := Some (counter_of (otel_Meter "svc") "log_total");
     durationHist := Some (histogram_of (otel_Meter "svc") "log_duration_ms");
     fields := []; attrs := []; err := None; name := nm; start := 1000;
     exporter := None |}.

Definition one_handle_world (c : Config) (h : Eotel) : World :=
  mkWorld c [h] [] 1000 [] [] [] (Some 204) [] [] [] [].

(** * A program logic for handle computations *)

(** [hoare P m Q E]: from a world in [P], [m] returns [a] in a world in
    [Q a], or panics or exits in a world in [E]. *)
Definition hoare {A} (P : World -> Prop) (m : M A)
    (Q : A -> World -> Prop) (E : World -> Prop) : Prop :=
  forall w, P w ->
    match m w with
    | Ok a w' => Q a w'
    | Panicked _ w' => E w'
    | Exited _ w' => E w'
    end.

(** [inv I m]: [I] holds of the world [m] leaves, however it ends. *)
Definition inv {A} (I : World -> Prop) (m : M A) : Prop :=
  hoare I m (fun _ => I) I.

(** The export path: configuration, queue, posts. *)
Definition export_is (c0 : Config) (q0 ps0 : list LokiEntry) (w : World) : Prop :=
  globalCfg w = c0 /\ logChan w = q0 /\ loki_posts w = ps0.

Definition same_export (w w' : World) : Prop :=
  globalCfg w' = globalCfg w /\ logChan w' = logChan w /\ loki_posts w' = loki_posts w.

Definition export_frame {A} (m : M A) : Prop :=
  forall w, same_export w (world_of (m w)).

(** The span state of the handle at [p]: its span field, and how many
    spans the tracer has started. *)
Definition span_state (p : loc) (s : option SpanRef) (n : nat) (w : World) : Prop :=
  exists h, heap w !! p = Some h /\ span h = s /\ length (spans w) = n.


(** Computations that start no span and leave the span field of [p]. *)
Definition span_frame {A} (p : loc) (m : M A) : Prop :=
  forall w h, heap w !! p = Some h ->
    exists h', heap (world_of (m w)) !! p = Some h' /\ span h' = span h /\
               length (spans (world_of (m w))) = length (spans w).

(** The world after the handle [h] at [p] has started its span: the new
    span has the next id, the handle holds it and its context carries it. *)
Definition span_started (p : loc) (h : Eotel) (w : World) : World :=
  let id := length (spans w) in
  let tr := match ctx_span (ctx h) ≫= (fun s => spans w !! s) with
            | Some parent => sp_trace parent
            | None => id
            end in
  set_heap
    (<[p := set_span (Some id) (set_ctx (mkContext (Some id) (ctx_logger (ctx h))) h)]>
       (heap w))
    (set_spans (spans w ++ [mkSpan (name h) tr (ctx_span (ctx h)) []]) w).

(** The line a logging call writes: the synthesized fields first, then
    the accumulated ones in insertion order. *)
Definition log_line (g : Config) (sc : SpanContext) (level msg : string) (h : Eotel)
  : LogLine :=
  mkLogLine level msg (synthesized_fields g sc level ++ fields h).

(** The span context of span [s] in world [w]. *)
Definition context_of (w : World) (s : SpanRef) : SpanContext :=
  match spans w !! s with
  | Some sp => mkSpanContext (Some (sp_trace sp)) (Some s)
  | None => empty_SpanContext
  end.

Definition four_levels : list string := ["info"; "error"; "debug"; "warn"].

(** What a logging call adds to the zap output and to the metrics. *)
Definition written (h : Eotel) (l : LogLine) : list LogLine :=
  match logger h with
  | Some zap_L => [l]
  | _ => []
  end.

Definition measured (h : Eotel) (level : string) (elapsed_ns : Z) : list MetricCall :=
  match meter h, logCounter h, durationHist h with
  | Some _, Some c, Some d => [CounterAdd c 1 level; HistogramRecord d elapsed_ns level]
  | _, _, _ => []
  end.

(** The handle with fields and attributes appended. *)
Definition accumulate (fs : list Field) (kvs : list KeyValue) (h : Eotel) : Eotel :=
  set_attrs (attrs h ++ kvs) (set_fields (fields h ++ fs) h).

Definition calls_attrs (cs : list Call) : list KeyValue := flat_map call_attrs cs.
Definition calls_fields (cs : list Call) : list Field := flat_map call_fields cs.

(** The error a sequence of calls leaves recorded, from [e0]. *)
Definition calls_err (e0 : error) (cs : list Call) : error :=
  fold_left (fun e c => match c with CallWithError (Some m) => Some m | _ => e end) cs e0.

(** The events the error calls of a sequence forward to the reporter. *)
Definition calls_events (cs : list Call) : list SentryEvent :=
  flat_map (fun c => match c with
                     | CallWithError (Some m) => [mkSentryEvent m ∅ {[ "error" := m ]}]
                     | _ => []
                     end) cs.

(** Calls that only accumulate: no logging, no fatal. *)
Definition is_accumulating (c : Call) : bool :=
  match c with
  | CallLog _ _ | CallFatal _ => false
  | _ => true
  end.

(** The trace a span started from context [c] joins: that of the span
    the context carries, or a new one named after the span's own id. *)
Definition joined_trace (w : World) (c : Context) (id : nat) : nat :=
  match ctx_span c ≫= (fun s => spans w !! s) with
  | Some parent => sp_trace parent
  | None => id
  end.

(** The handle [Child] of the revised file makes from [h]. *)
Definition child_of (g : Config) (h : Eotel) (nm : string) (s : SpanRef) (t : Z) : Eotel :=
  {| ctx := mkContext (Some s) (ctx_logger (ctx h)); span := Some s;
     logger := logger h;
     tracer := Some (match tracer h with Some tr => tr | None => otel_Tracer_of g end);
     meter := meter h; logCounter := logCounter h; durationHist := durationHist h;
     exporter := exporter h; name := nm; start := t;
     fields := []; attrs := []; err := None |}.

(** A handle that can log: it holds a span or has a tracer to start one,
    and its instruments are set whenever its meter is. *)
Definition usable (h : Eotel) : Prop :=
  (span h ≠ None \/ tracer h ≠ None) /\ instruments_ok h.

(** The handle [Noop] makes at time [t]. *)
Definition noop_handle (nm : string) (t : Z) : Eotel :=
  {| ctx := context_Background; logger := Some zap_NewNop; tracer := None;
     meter := None; span := None; logCounter := None; durationHist := None;
     fields := []; attrs := []; err := None; name := nm; start := t;
     exporter := None |}.

Definition no_fatal (c : Call) : bool :=
  match c with CallFatal _ => false | _ => true end.

(** The handle after a logging call: the span is held, the context
    carries it, and the attributes are the flushed list. *)
Definition after_log (h : Eotel) (s : SpanRef) (flushed : list KeyValue) : Eotel :=
  set_attrs flushed
    match span h with
    | Some _ => h
    | None => set_span (Some s) (set_ctx (mkContext (Some s) (ctx_logger (ctx h))) h)
    end.

(** What a returning logging call of the revised handle leaves, apart
    from the span table: [w'] after [log] on the handle [h] at [p] in [w]. *)
Definition logged (p : loc) (h : Eotel) (level msg : string) (w w' : World) : Prop :=
  let d := now w - start h in
  let flushed := SliceStable (attrs h ++ synthesized_attrs msg level d) in
  exists s,
    match span h with Some s0 => s = s0 | None => s = length (spans w) end /\
    heap w' !! p = Some (after_log h s flushed) /\
    length (heap w') = length (heap w) /\
    (forall q, q ≠ p -> heap w' !! q = heap w !! q) /\
    zap_out w' = zap_out w ++ written h (log_line (globalCfg w) (context_of w' s) level msg h) /\
    metrics w' = metrics w ++ measured h level d /\
    globalCfg w' = globalCfg w /\ now w' = now w /\ sentry w' = sentry w /\
    aborts w' = aborts w /\ stdout w' = stdout w.

(** The parts of a handle no client call changes. *)
Definition same_wiring (h h' : Eotel) : Prop :=
  logger h' = logger h /\ tracer h' = tracer h /\ meter h' = meter h /\
  logCounter h' = logCounter h /\ durationHist h' = durationHist h /\
  exporter h' = exporter h /\ start h' = start h /\ name h' = name h.

(** The metric updates of a sequence of calls: one counter increment and
    one histogram record per logging call, labelled by its severity. *)
Definition calls_metrics (h : Eotel) (elapsed_ns : Z) (cs : list Call) : list MetricCall :=
  flat_map (fun c => match c with
                     | CallLog sev _ => measured h (severity_string sev) elapsed_ns
                     | _ => []
                     end) cs.

(** The world with [End] sent to span [s]. *)
Definition span_ended (s : SpanRef) (w : World) : World :=
  set_spans (alter (add_call End) s (spans w)) w.

(** The handle [Middleware] makes for a request, and the world in which
    it calls the rest of the chain. *)
Definition middleware_handle (nm : string) (rq : RequestInfo) (c : gin_Context) (w : World)
  : Eotel :=
  accumulate
    [zap_Any "method" (AnyString (Method rq)); zap_Any "path" (AnyString (URL_Path rq));
     zap_Any "ip" (AnyString (ClientIP rq)); zap_Any "ua" (AnyString (UserAgent rq))]
    [attribute_String "method" (Method rq); attribute_String "path" (URL_Path rq);
     attribute_String "ip" (ClientIP rq); attribute_String "ua" (UserAgent rq)]
    {| ctx := mkContext (Some (length (spans w))) (ctx_logger (Request_Context c));
       logger := Some zap_L;
       tracer := Some (otel_Tracer_of (globalCfg w));
       meter := Some (otel_Meter_of (globalCfg w)); span := None;
       logCounter := Some (counter_of (otel_Meter_of (globalCfg w)) "log_total");
       durationHist := Some (histogram_of (otel_Meter_of (globalCfg w)) "log_duration_ms");
       fields := []; attrs := []; err := None; name := nm; start := now w;
       exporter := None |}.

Definition middleware_world (nm : string) (rq : RequestInfo) (c : gin_Context) (w : World)
  : World :=
  set_heap (heap w ++ [middleware_handle nm rq c w])
    (set_spans
       (spans w ++
        [mkSpan (Method rq +:+ " " +:+ FullPath rq)
           (joined_trace w (Request_Context c) (length (spans w)))
           (ctx_span (Request_Context c)) []]) w).

(** * init.go *)

(** What the external constructors answer during initialisation: nil, or
    the error of [resource.New], of the OTLP trace and metric exporters
    and of [sentry.Init]. *)
Record InitEnv : Type := mkInitEnv {
  resource_New : error;
  otlptracegrpc_New : error;
  otlpmetricgrpc_New : error;
  sentry_Init : error
}.

(** The process-wide state initialisation installs, outside the handle's
    world: the providers set on [otel], the package variables
    [globalTracer] and [globalMeter] of src/init.go, what [log.Printf]
    printed and how often [sentry.Flush] ran. *)
Record Providers : Type := mkProviders {
  tracer_provider_set : bool;
  meter_provider_set : bool;
  globalTracer : option Tracer;
  globalMeter : option Meter;
  log_printed : list string;
  sentry_flushes : nat
}.

Definition set_tracer_provider (pr : Providers) : Providers :=
  mkProviders true (meter_provider_set pr) (globalTracer pr) (globalMeter pr)
    (log_printed pr) (sentry_flushes pr).
Definition set_meter_provider (pr : Providers) : Providers :=
  mkProviders (tracer_provider_set pr) true (globalTracer pr) (globalMeter pr)
    (log_printed pr) (sentry_flushes pr).
Definition set_globalTracer (t : Tracer) (pr : Providers) : Providers :=
  mkProviders (tracer_provider_set pr) (meter_provider_set pr) (Some t) (globalMeter pr)
    (log_printed pr) (sentry_flushes pr).
Definition set_globalMeter (m : Meter) (pr : Providers) : Providers :=
  mkProviders (tracer_provider_set pr) (meter_provider_set pr) (globalTracer pr) (Some m)
    (log_printed pr) (sentry_flushes pr).
Definition log_Printf (line : string) (pr : Providers) : Providers :=
  mkProviders (tracer_provider_set pr) (meter_provider_set pr) (globalTracer pr)
    (globalMeter pr) (log_printed pr ++ [line]) (sentry_flushes pr).
Definition sentry_Flush (pr : Providers) : Providers :=
  mkProviders (tracer_provider_set pr) (meter_provider_set pr) (globalTracer pr)
    (globalMeter pr) (log_printed pr) (S (sentry_flushes pr)).

(** The shutdown function returned: it flushes sentry always
    (src/unnamed/part_000) or only when sentry is enabled (src/init.go),
    and returns nil. *)
Inductive Shutdown : Type :=
  | flush_always
  | flush_when (enabled : bool).

Definition run_Shutdown (sd : Shutdown) (pr : Providers) : error * Providers :=
  match sd with
  | flush_always => (None, sentry_Flush pr)
  | flush_when true => (None, sentry_Flush pr)
  | flush_when false => (None, pr)
  end.

Definition init_sentry (env : InitEnv) (c : Config) (pr : Providers) : Providers :=
  if EnableSentry c then
    match sentry_Init env with
    | Some e => log_Printf ("init Sentry error: " +:+ e) pr
    | None => pr
    end
  else pr.

(** [InitEOTEL] of src/unnamed/part_000, on the world and the providers. *)
Definition InitEOTEL_part_000 (env : InitEnv) (c : Config) (w : World) (pr : Providers)
  : (option Shutdown * error) * (World * Providers) :=
  let w := set_globalCfg c w in
  match resource_New env with
  | Some e => ((None, Some ("resource.New: " +:+ e)), (w, pr))
  | None =>
      match (if EnableTracing c then
               match otlptracegrpc_New env with
               | Some e => inl ("trace exporter: " +:+ e)
               | None => inr (set_tracer_provider pr)
               end
             else inr pr) with
      | inl e => ((None, Some e), (w, pr))
      | inr pr1 =>
          match (if EnableMetrics c then
                   match otlpmetricgrpc_New env with
                   | Some e => inl ("metric exporter: " +:+ e)
                   | None => inr (set_meter_provider pr1)
                   end
                 else inr pr1) with
          | inl e => ((None, Some e), (w, pr1))
          | inr pr2 => ((Some flush_always, None), (w, init_sentry env c pr2))
          end
      end
  end.

(** [InitEOTEL] of src/init.go: it also keeps the tracer and the meter
    in [globalTracer] and [globalMeter], with or without tracing and
    metrics enabled. *)
Definition InitEOTEL (env : InitEnv) (c : Config) (w : World) (pr : Providers)
  : (option Shutdown * error) * (World * Providers) :=
  let w := set_globalCfg c w in
  match resource_New env with
  | Some e => ((None, Some ("resource.New: " +:+ e)), (w, pr))
  | None =>
      match (if EnableTracing c then
               match otlptracegrpc_New env with
               | Some e => inl ("trace exporter: " +:+ e)
               | None => inr (set_globalTracer (otel_Tracer (ServiceName c))
                                (set_tracer_provider pr))
               end
             else inr (set_globalTracer (otel_Tracer (ServiceName c)) pr)) with
      | inl e => ((None, Some e), (w, pr))
      | inr pr1 =>
          match (if EnableMetrics c then
                   match otlpmetricgrpc_New env with
                   | Some e => inl ("metric exporter: " +:+ e)
                   | None => inr (set_globalMeter (otel_Meter (ServiceName c))
                                    (set_meter_provider pr1))
                   end
                 else inr (set_globalMeter (otel_Meter (ServiceName c)) pr1)) with
          | inl e => ((None, Some e), (w, pr1))
          | inr pr2 =>
              ((Some (flush_when (EnableSentry c)), None), (w, init_sentry env c pr2))
          end
      end
  end.

(** Computations that change no span's error status. *)
Definition status_frame {A} (m : M A) : Prop :=
  forall w s, marks_error (calls_of (world_of (m w)) s) = marks_error (calls_of w s).

Definition status_as_in (w0 w : World) : Prop :=
  forall s, marks_error (calls_of w s) = marks_error (calls_of w0 s).

Definition sets_status (c : SpanCall) : bool :=
  match c with SetStatusError _ => true | _ => false end.

(** * Flushes over several logging calls *)

(** A span takes no update after [End] ("updates to the Span are not
    allowed after this method has been called"): the calls that reach a
    span are those it was sent before its first [End]. *)
Fixpoint recorded (cs : list SpanCall) : list SpanCall :=
  match cs with
  | [] => []
  | End :: _ => []
  | c :: cs' => c :: recorded cs'
  end.

Definition ended (cs : list SpanCall) : bool :=
  existsb (fun c => match c with End => true | _ => false end) cs.

(** A span that is there and has not been ended. *)
Definition live (w : World) (s : SpanRef) : Prop :=
  (s < length (spans w))%nat /\ ended (calls_of w s) = false.

Definition log_calls (ls : list (Severity * string)) : list Call :=
  map (fun l => CallLog l.1 l.2) ls.

(** The attributes the logging calls [ls] synthesize, in call order. *)
Definition synthesized_of (d : Z) (ls : list (Severity * string)) : list KeyValue :=
  flat_map (fun l => synthesized_attrs l.2 (severity_string l.1) d) ls.

(** The lists successive logging calls hand to [SetAttributes], from the
    accumulated attributes [acc]: [endSpan] appends its three attributes
    to [l.attrs], sorts [l.attrs] in place and sends it, so each call
    starts from the sorted list of the call before. *)
Fixpoint flush_seq (acc : list KeyValue) (d : Z) (ls : list (Severity * string))
  : list (list KeyValue) :=
  match ls with
  | [] => []
  | l :: ls' =>
      let f := SliceStable (acc ++ synthesized_attrs l.2 (severity_string l.1) d) in
      f :: flush_seq f d ls'
  end.

(** What [endSpan] sends to the span over these flushes. *)
Definition flush_calls (status : bool) (e : error) (fl : list (list KeyValue))
  : list SpanCall :=
  flat_map (fun f => end_calls status f e) fl.

(** The span a logging call of [h] writes to: the one it holds, or the
    one it is about to start. *)
Definition span_to_be (w : World) (h : Eotel) : SpanRef :=
  match span h with
  | Some s => s
  | None => length (spans w)
  end.

(** The attributes and fields the field calls of src/eotel.go accumulate:
    every key, the empty one too. *)
Definition raw_attrs (m : list (string * any)) : list KeyValue :=
  map (fun kv => attribute_String kv.1 (Sprintf_v kv.2)) m.

Definition raw_fields (m : list (string * any)) : list Field :=
  map (fun kv => zap_Any kv.1 kv.2) m.

Definition raw_call_attrs (c : Call) : list KeyValue :=
  match c with
  | CallWithField k v => raw_attrs [(k, v)]
  | CallWithFields m => raw_attrs m
  | _ => []
  end.

Definition raw_call_fields (c : Call) : list Field :=
  match c with
  | CallWithField k v => raw_fields [(k, v)]
  | CallWithFields m => raw_fields m
  | _ => []
  end.

Definition raw_calls_attrs (cs : list Call) : list KeyValue := flat_map raw_call_attrs cs.
Definition raw_calls_fields (cs : list Call) : list Field := flat_map raw_call_fields cs.

(** What the flushes [fl] of logging calls leave on the span [s] that
    had received [before]: every call sends its list; a span that was
    live takes the first one only, being ended by it. *)
Definition flushed_with (status : bool) (e : error) (fl : list (list KeyValue))
    (before after : list SpanCall) : Prop :=
  after = before ++ flush_calls status e fl /\
  flushes after = flushes before ++ fl /\
  (ended before = false -> flushes (recorded after) = flushes before ++ take 1 fl).

(** * Proofs: rules of the program logic *)

Lemma inv_world_of {A} (I : World -> Prop) (m : M A) w :
  inv I m -> I w -> I (world_of (m w)).
Proof. intros H Hw. specialize (H w Hw). by destruct (m w). Qed.

Lemma hoare_bind {A B} P (m : M A) (k : A -> M B) Q R E :
  hoare P m Q E -> (forall a, hoare (Q a) (k a) R E) -> hoare P (m ≫= k) R E.
Proof.
  intros Hm Hk w Hw. specialize (Hm w Hw).
  unfold mbind, M_bind, bind. destruct (m w) as [a w'| |]; try done.
  by apply Hk.
Qed.

Lemma hoare_ret {A} (P : A -> World -> Prop) (a : A) E : hoare (P a) (mret a) P E.
Proof. by intros w Hw. Qed.

Lemma hoare_conseq {A} (P P' : World -> Prop) (m : M A) (Q Q' : A -> World -> Prop) E :
  hoare P' m Q' E -> (forall w, P w -> P' w) -> (forall a w, Q' a w -> Q a w) ->
  hoare P m Q E.
Proof.
  intros H HP HQ w Hw. specialize (H w (HP w Hw)).
  destruct (m w); auto.
Qed.

Lemma inv_bind {A B} I (m : M A) (k : A -> M B) :
  inv I m -> (forall a, inv I (k a)) -> inv I (m ≫= k).
Proof. intros. by eapply hoare_bind. Qed.

Lemma inv_ret {A} I (a : A) : inv I (mret a : M A).
Proof. by intros w Hw. Qed.

Lemma inv_panic {A} I v : inv I (panic v : M A).
Proof. by intros w Hw. Qed.

Lemma inv_exit {A} I c : inv I (os_Exit c : M A).
Proof. by intros w Hw. Qed.

(** A read keeps any invariant, and what it read is known afterwards. *)
Lemma inv_bind_cfg {B} (I : World -> Prop) (k : Config -> M B) :
  (forall g, (exists w, I w /\ g = globalCfg w) -> inv I (k g)) -> inv I (cfg ≫= k).
Proof. intros H w Hw. apply (H (globalCfg w)); eauto. Qed.

Lemma inv_bind_get_world {B} (I : World -> Prop) (k : World -> M B) :
  (forall w0, I w0 -> inv I (k w0)) -> inv I (get_world ≫= k).
Proof. intros H w Hw. by apply (H w). Qed.

Lemma inv_bind_time_Now {B} (I : World -> Prop) (k : Z -> M B) :
  (forall t, inv I (k t)) -> inv I (time_Now ≫= k).
Proof. intros H w Hw. by apply (H (now w)). Qed.

Lemma inv_bind_load {B} (I : World -> Prop) l (k : Eotel -> M B) :
  (forall p h, l = Some p -> (exists w, I w /\ heap w !! p = Some h) -> inv I (k h)) ->
  inv I (load l ≫= k).
Proof.
  intros H w Hw. unfold mbind, M_bind, bind, load.
  destruct l as [p|]; [|done].
  destruct (heap w !! p) as [h|] eqn:Hp; [|done].
  apply (H p h); eauto.
Qed.

(** ** Computations that leave the export path alone *)

Ltac frame_tac :=
  intros w; unfold same_export, mbind, M_bind, bind, mret, M_ret, ret; cbn;
  repeat (case_match; cbn; try done); done.

Lemma frame_load l : export_frame (load l).
Proof. unfold load. frame_tac. Qed.
Lemma frame_store l f : export_frame (store l f).
Proof. unfold store. frame_tac. Qed.
Lemma frame_alloc h : export_frame (alloc h).
Proof. frame_tac. Qed.
Lemma frame_tracer_Start t c nm : export_frame (tracer_Start t c nm).
Proof. unfold tracer_Start. frame_tac. Qed.
Lemma frame_span_call s c : export_frame (span_call s c).
Proof. unfold span_call. frame_tac. Qed.
Lemma frame_span_SpanContext s : export_frame (span_SpanContext s).
Proof. unfold span_SpanContext. frame_tac. Qed.
Lemma frame_SpanVal_call v c : export_frame (SpanVal_call v c).
Proof. unfold SpanVal_call, span_call. frame_tac. Qed.
Lemma frame_zap_write lg level msg fs : export_frame (zap_write lg level msg fs).
Proof. unfold zap_write. destruct lg; frame_tac. Qed.
Lemma frame_zap_switch lg level msg fs : export_frame (zap_switch lg level msg fs).
Proof.
  unfold zap_switch, zap_Fatal, zap_write.
  repeat case_match; frame_tac.
Qed.
Lemma frame_counter_Add c n level : export_frame (counter_Add c n level).
Proof. unfold counter_Add. destruct c; frame_tac. Qed.
Lemma frame_histogram_Record h d level : export_frame (histogram_Record h d level).
Proof. unfold histogram_Record. destruct h; frame_tac. Qed.
Lemma frame_CaptureError e tags extras : export_frame (CaptureError e tags extras).
Proof. unfold CaptureError. destruct e; frame_tac. Qed.
Lemma frame_Exporter_CaptureError x e tags extras :
  export_frame (Exporter_CaptureError x e tags extras).
Proof.
  unfold Exporter_CaptureError.
  destruct x as [[]|]; [apply frame_CaptureError|frame_tac].
Qed.
Lemma frame_gin_abort a : export_frame (gin_abort a).
Proof. frame_tac. Qed.
Lemma frame_printf line :
  export_frame (put_world (fun w => set_stdout (stdout w ++ [line]) w)).
Proof. frame_tac. Qed.

Create HintDb export_frame.

#[local] Hint Resolve frame_load frame_store frame_alloc frame_tracer_Start
  frame_span_call frame_span_SpanContext frame_SpanVal_call frame_zap_write
  frame_zap_switch frame_counter_Add frame_histogram_Record frame_CaptureError
  frame_Exporter_CaptureError frame_gin_abort frame_printf : export_frame.

Lemma inv_export_frame {A} c0 q0 ps0 (m : M A) :
  export_frame m -> inv (export_is c0 q0 ps0) m.
Proof.
  intros Hm w (Hc & Hq & Hp). destruct (Hm w) as (Hc' & Hq' & Hp').
  unfold export_is. destruct (m w); cbn in *; repeat split; congruence.
Qed.

(** One step of an invariant proof; [leaf] closes the primitives. *)
Ltac inv_step_with leaf :=
  lazymatch goal with
  | |- inv _ (mret _) => apply inv_ret
  | |- inv _ (panic _) => apply inv_panic
  | |- inv _ (os_Exit _) => apply inv_exit
  | |- inv _ (cfg ≫= _) => apply inv_bind_cfg; intros ? ?
  | |- inv _ (time_Now ≫= _) => apply inv_bind_time_Now; intros ?
  | |- inv _ (get_world ≫= _) => apply inv_bind_get_world; intros ? ?
  | |- inv _ (_ ≫= _) => apply inv_bind; [|intros ?]
  | |- inv _ (match ?x with _ => _ end) => destruct x eqn:?
  | |- inv _ _ => leaf
  end.

Ltac inv_step :=
  inv_step_with ltac:(apply inv_export_frame; solve [auto with export_frame]).

(** * Remote log export disabled *)

Section ExportDisabled.
Variables (c0 : Config) (q0 ps0 : list LokiEntry).
Hypothesis disabled : EnableLoki c0 = false.

Local Abbreviation I := (export_is c0 q0 ps0).

Lemma cfg_read g : (exists w, I w /\ g = globalCfg w) -> EnableLoki g = false.
Proof. intros (w & (Hc & _) & ->). by rewrite Hc. Qed.

Ltac inv_all := repeat inv_step.

Lemma Revised_Noop_export nm : inv I (Revised.Noop nm).
Proof. unfold Revised.Noop. inv_all. Qed.

Lemma Revised_startSpanIfNeeded_export l : inv I (Revised.startSpanIfNeeded l).
Proof. unfold Revised.startSpanIfNeeded. inv_all. Qed.

Lemma Revised_endSpan_export l msg level : inv I (Revised.endSpan l msg level).
Proof. unfold Revised.endSpan. inv_all. Qed.

Lemma Revised_log_export l level msg : inv I (Revised.log l level msg).
Proof.
  unfold Revised.log. destruct l; [|inv_all].
  apply inv_bind; [apply Revised_startSpanIfNeeded_export|intros _].
  apply inv_bind; [inv_all|intros h].
  apply inv_bind; [inv_all|intros sc].
  apply inv_bind_cfg; intros g Hg. rewrite (cfg_read g Hg). cbn [andb].
  apply inv_bind; [inv_all|intros _].
  apply inv_bind; [inv_all|intros _].
  apply Revised_endSpan_export.
Qed.

Lemma Revised_WithField_export l k v : inv I (Revised.WithField l k v).
Proof.
  unfold Revised.WithField. destruct l; [|apply Revised_Noop_export].
  inv_all.
Qed.

Lemma Revised_WithFields_export l m : inv I (Revised.WithFields l m).
Proof.
  unfold Revised.WithFields. apply inv_bind; [|intros; apply inv_ret].
  induction m as [|[k v] m IH]; cbn [Revised.WithFields_range]; [apply inv_ret|].
  apply inv_bind; [apply Revised_WithField_export|by intros].
Qed.

Lemma Revised_WithError_export l e : inv I (Revised.WithError l e).
Proof. unfold Revised.WithError. inv_all. Qed.

Lemma Revised_Fatal_export l msg : inv I (Revised.Fatal l msg).
Proof.
  unfold Revised.Fatal.
  apply inv_bind; [apply Revised_log_export|intros _]. inv_all.
Qed.

Lemma Revised_call_export l c : inv I (Revised.call l c).
Proof.
  destruct c as [k v|m|e|[] msg|msg]; cbn [Revised.call].
  - apply inv_bind; [apply Revised_WithField_export|intros; apply inv_ret].
  - apply inv_bind; [apply Revised_WithFields_export|intros; apply inv_ret].
  - apply inv_bind; [apply Revised_WithError_export|intros; apply inv_ret].
  - apply Revised_log_export.
  - apply Revised_log_export.
  - apply Revised_log_export.
  - apply Revised_log_export.
  - apply Revised_Fatal_export.
Qed.

Lemma Revised_calls_export l cs : inv I (Revised.calls l cs).
Proof.
  induction cs as [|c cs IH]; cbn [Revised.calls]; [apply inv_ret|].
  apply inv_bind; [apply Revised_call_export|by intros].
Qed.

Lemma EotelGo_startSpanIfNeeded_export l : inv I (EotelGo.startSpanIfNeeded l).
Proof. unfold EotelGo.startSpanIfNeeded. inv_all. Qed.

Lemma EotelGo_endSpan_export l msg level : inv I (EotelGo.endSpan l msg level).
Proof. unfold EotelGo.endSpan. inv_all. Qed.

Lemma EotelGo_log_export l level msg : inv I (EotelGo.log l level msg).
Proof.
  unfold EotelGo.log.
  apply inv_bind; [apply EotelGo_startSpanIfNeeded_export|intros _].
  apply inv_bind; [inv_all|intros h].
  apply inv_bind; [inv_all|intros sc].
  apply inv_bind_cfg; intros g Hg. rewrite (cfg_read g Hg).
  apply inv_bind; [inv_all|intros _].
  apply inv_bind; [inv_all|intros _].
  apply EotelGo_endSpan_export.
Qed.

Lemma EotelGo_WithField_export l k v : inv I (EotelGo.WithField l k v).
Proof. unfold EotelGo.WithField. inv_all. Qed.

Lemma EotelGo_WithFields_export l m : inv I (EotelGo.WithFields l m).
Proof.
  unfold EotelGo.WithFields. apply inv_bind; [|intros; apply inv_ret].
  induction m as [|[k v] m IH]; cbn [EotelGo.WithFields_range]; [apply inv_ret|].
  apply inv_bind; [apply EotelGo_WithField_export|by intros].
Qed.

Lemma EotelGo_WithError_export l e : inv I (EotelGo.WithError l e).
Proof. unfold EotelGo.WithError. inv_all. Qed.

Lemma EotelGo_Fatal_export l msg : inv I (EotelGo.Fatal l msg).
Proof.
  unfold EotelGo.Fatal.
  apply inv_bind; [apply EotelGo_log_export|intros _]. inv_all.
Qed.

Lemma EotelGo_call_export l c : inv I (EotelGo.call l c).
Proof.
  destruct c as [k v|m|e|[] msg|msg]; cbn [EotelGo.call].
  - apply inv_bind; [apply EotelGo_WithField_export|intros; apply inv_ret].
  - apply inv_bind; [apply EotelGo_WithFields_export|intros; apply inv_ret].
  - apply inv_bind; [apply EotelGo_WithError_export|intros; apply inv_ret].
  - apply EotelGo_log_export.
  - apply EotelGo_log_export.
  - apply EotelGo_log_export.
  - apply EotelGo_log_export.
  - apply EotelGo_Fatal_export.
Qed.

Lemma EotelGo_calls_export l cs : inv I (EotelGo.calls l cs).
Proof.
  induction cs as [|c cs IH]; cbn [EotelGo.calls]; [apply inv_ret|].
  apply inv_bind; [apply EotelGo_call_export|by intros].
Qed.
End ExportDisabled.

Lemma sendLoki_disabled entry w :
  EnableLoki (globalCfg w) = false -> sendLoki entry w = Ok None w.
Proof. intros H. unfold sendLoki, cfg, mbind, M_bind, bind. by rewrite H. Qed.

(** C8.  With remote log export disabled, no sequence of calls on a
    handle (field calls, error calls, logging at any severity, fatal)
    enqueues an entry or posts one, in either handle file and however the
    sequence ends; and [sendLoki] itself returns without posting. *)
Theorem export_disabled_nothing_enqueued (w : World) (l : option loc) (cs : list Call) :
  EnableLoki (globalCfg w) = false ->
  (logChan (world_of (Revised.calls l cs w)) = logChan w /\
   loki_posts (world_of (Revised.calls l cs w)) = loki_posts w) /\
  (logChan (world_of (EotelGo.calls l cs w)) = logChan w /\
   loki_posts (world_of (EotelGo.calls l cs w)) = loki_posts w) /\
  (forall entry, sendLoki entry w = Ok None w).
Proof.
  intros Hd.
  assert (HI : export_is (globalCfg w) (logChan w) (loki_posts w) w) by done.
  split; [|split].
  - pose proof (inv_world_of _ _ w (Revised_calls_export _ _ _ Hd l cs) HI) as (_ & ? & ?).
    done.
  - pose proof (inv_world_of _ _ w (EotelGo_calls_export _ _ _ Hd l cs) HI) as (_ & ? & ?).
    done.
  - intros entry. by apply sendLoki_disabled.
Qed.

Lemma export_disabled_nothing_enqueued_witness :
  let w := one_handle_world quiet_cfg (fresh_handle "checkout") in
  let cs := [CallWithField "user_id" (AnyInt 42); CallLog info "start";
             CallLog error_sev "declined"] in
  EnableLoki (globalCfg w) = false /\
  logChan (world_of (Revised.calls (Some 0%nat) cs w)) = [] /\
  logChan (world_of (EotelGo.calls (Some 0%nat) cs w)) = [].
Proof.
  intros w cs.
  destruct (export_disabled_nothing_enqueued w (Some 0%nat) cs eq_refl)
    as ((H1 & _) & (H2 & _) & _).
  split; [reflexivity|]. split; [exact H1|exact H2].
Defined.

(** * Symbolic execution of handle methods *)

Ltac munfold :=
  unfold mbind, M_bind, bind, mret, M_ret, ret, put_world, get_world, cfg,
    time_Now, panic, os_Exit.

Lemma lookup_insert_same (hp : list Eotel) p h h' :
  hp !! p = Some h -> <[p := h']> hp !! p = Some h'.
Proof. intros H. apply list_lookup_insert_eq. by eapply lookup_lt_Some. Qed.

Lemma lookup_alloc (hp : list Eotel) h : (hp ++ [h]) !! length hp = Some h.
Proof. by apply list_lookup_middle. Qed.

Lemma insert_alloc (hp : list Eotel) h h' : <[length hp := h']> (hp ++ [h]) = hp ++ [h'].
Proof. rewrite insert_app_r_alt by lia. by rewrite Nat.sub_diag. Qed.

Lemma set_heap_id w : set_heap (heap w) w = w.
Proof. by destruct w. Qed.

Lemma set_heap_insert_id w p h : heap w !! p = Some h -> set_heap (<[p := h]> (heap w)) w = w.
Proof. intros H. rewrite list_insert_id by done. apply set_heap_id. Qed.

Lemma set_fields_attrs_id h : set_attrs (attrs h) (set_fields (fields h) h) = h.
Proof. by destruct h. Qed.

(** Unfold the primitives and run as far as the heap lookups allow. *)
Ltac mrun :=
  munfold;
  unfold load, store, alloc, tracer_Start, span_call, span_SpanContext,
    counter_Add, histogram_Record, Exporter_CaptureError, CaptureError,
    gin_abort, zap_write;
  munfold;
  cbn -[String.append Sprintf_v pretty SliceStable synthesized_attrs
        synthesized_fields bool_decide lookup insert alter length].

Ltac heap_simpl :=
  repeat first
    [ rewrite lookup_alloc
    | rewrite insert_alloc
    | match goal with
      | Hp : heap _ !! ?p = Some _ |- _ =>
          first [ rewrite Hp | rewrite (lookup_insert_same _ _ _ _ Hp) ]
      end
    | rewrite list_insert_insert_eq
    | progress
        cbn -[String.append Sprintf_v pretty SliceStable synthesized_attrs
              synthesized_fields bool_decide lookup insert alter length] ].

(** * The claims on single calls *)

(** C9.  [WithError(nil)] changes nothing: in both handle files it
    returns the handle it was called on and leaves the whole world, the
    handle's [lastError], fields and attributes and the error reporter
    included, as it was; and the error reporter itself ignores a nil
    error. *)
Theorem WithError_nil_noop (l : option loc) (w : World) :
  Revised.WithError l None w = Ok l w /\
  EotelGo.WithError l None w = Ok l w /\
  (forall tags extras, CaptureError None tags extras w = Ok tt w).
Proof. repeat split. Qed.

(** The revised [WithField] with an empty key: nothing is appended. *)
Lemma Revised_WithField_empty_key (p : loc) (value : any) (w : World) :
  Revised.WithField (Some p) "" value w = Ok (Some p) w.
Proof. reflexivity. Qed.

(** What [WithField] of src/eotel.go does to a handle, whatever the key. *)
Lemma EotelGo_WithField_exact (p : loc) (h : Eotel) key value w :
  heap w !! p = Some h ->
  EotelGo.WithField (Some p) key value w =
    Ok (Some p)
       (set_heap
          (<[p := set_attrs (attrs h ++ [attribute_String key (Sprintf_v value)])
                    (set_fields (fields h ++ [zap_Any key value]) h)]> (heap w)) w).
Proof.
  intros Hp. unfold EotelGo.WithField. mrun. heap_simpl. reflexivity.
Qed.

(** C7.  [WithField] of src/eotel.go has no guard on the key: with the
    empty key it appends a field and an attribute, where the revised
    handle file returns at once. *)
Theorem EotelGo_WithField_empty_key_appends :
  let w := one_handle_world example_cfg (fresh_handle "checkout") in
  exists w' h',
    EotelGo.WithField (Some 0%nat) "" (AnyInt 1) w = Ok (Some 0%nat) w' /\
    heap w' !! 0%nat = Some h' /\
    fields h' = [zap_Any "" (AnyInt 1)] /\
    attrs h' = [attribute_String "" "1"] /\
    Revised.WithField (Some 0%nat) "" (AnyInt 1) w = Ok (Some 0%nat) w.
Proof. intros w. do 2 eexists. repeat split; vm_compute; reflexivity. Qed.

(** The revised [WithError] on a handle, with a non-nil error. *)
Lemma Revised_WithError_exact (p : loc) (h : Eotel) (msg : string) w :
  heap w !! p = Some h ->
  Revised.WithError (Some p) (Some msg) w =
    Ok (Some p)
       (set_sentry
          (sentry w ++
             if bool_decide (exporter h ≠ None) && EnableSentry (globalCfg w)
             then [mkSentryEvent msg ∅ {[ "error" := msg ]}] else [])
          (set_heap
             (<[p := set_attrs (attrs h ++ [attribute_String "error" msg])
                       (set_fields (fields h ++ [zap_Error msg])
                          (set_err (Some msg) h))]> (heap w)) w)).
Proof.
  intros Hp. unfold Revised.WithError. mrun. heap_simpl.
  destruct (exporter h) as [[]|]; heap_simpl.
  - destruct (EnableSentry (globalCfg w)); heap_simpl; [reflexivity|].
    rewrite app_nil_r. by destruct w.
  - rewrite app_nil_r. by destruct w.
Qed.

(** C3.  [WithError] of src/eotel.go calls the error reporter through
    the exporter without a nil check.  On a freshly created handle, which
    has no exporter, the call panics (after the error was stored); no
    error reaches the reporter. *)
Theorem EotelGo_WithError_fresh_handle_panics
    (c : Context) (nm msg : string) (w : World) :
  exists w',
    (l ← EotelGo.New c nm; EotelGo.WithError l (Some msg)) w
      = Panicked nil_dereference w' /\
    sentry w' = sentry w /\
    (err <$> heap w' !! length (heap w)) = Some (Some msg).
Proof.
  unfold EotelGo.New, EotelGo.WithError, initMetrics. mrun. heap_simpl.
  eexists. split; [reflexivity|]. heap_simpl. done.
Qed.

(** The revised [FromContext] never returns nil. *)
Lemma Revised_FromContext_not_nil (c : Context) (nm : string) (w : World) :
  exists p w', Revised.FromContext c nm w = Ok (Some p) w'.
Proof.
  unfold Revised.FromContext, Revised.Noop. destruct (ctx_logger c) as [[p|]|];
    mrun; eauto.
Qed.

(** Logging through a handle that has neither a span nor a tracer
    panics in [startSpanIfNeeded]. *)
Lemma Revised_log_no_tracer_panics (p : loc) (h : Eotel) level msg w :
  heap w !! p = Some h -> span h = None -> tracer h = None ->
  Revised.log (Some p) level msg w = Panicked nil_dereference w.
Proof.
  intros Hp Hs Ht. unfold Revised.log, Revised.startSpanIfNeeded. mrun.
  heap_simpl. rewrite Hs, Ht. reflexivity.
Qed.

(** C10.  [FromContext] on a context that carries no handle returns a
    non-nil handle, the one [Noop] makes.  That handle has no tracer, and
    every logging call on it panics with a nil dereference in
    [startSpanIfNeeded]. *)
Theorem Revised_fallback_handle_logging_panics
    (s : option SpanRef) (nm : string) (w : World) :
  exists p w1,
    Revised.FromContext (mkContext s None) nm w = Ok (Some p) w1 /\
    forall sev msg,
      Revised.call (Some p) (CallLog sev msg) w1 = Panicked nil_dereference w1.
Proof.
  unfold Revised.FromContext, Revised.Noop. mrun.
  do 2 eexists. split; [reflexivity|]. intros sev msg.
  destruct sev; cbn [Revised.call]; unfold Revised.Info, Revised.Error,
    Revised.Debug, Revised.Warn;
    (eapply Revised_log_no_tracer_panics; [apply lookup_alloc|done|done]).
Qed.

(** C4.  Run on a request whose context carries no handle, the deferred
    closure of [RecoverPanic] panics itself, in both handle files: a new
    panic leaves the recovery function, no line is logged and the request
    is not aborted.  In the revised file the fallback handle has no
    tracer; in src/eotel.go the fresh handle has no exporter. *)
Theorem RecoverPanic_without_handle_panics
    (s : option SpanRef) (r : any) (l : option loc) (w : World) :
  let c := mk_gin_Context (mkContext s None) in
  (exists w', Revised.RecoverPanic c (Some r) w = Panicked nil_dereference w' /\
              zap_out w' = zap_out w /\ aborts w' = aborts w) /\
  (exists w', EotelGo.RecoverPanic l c (Some r) w = Panicked nil_dereference w' /\
              zap_out w' = zap_out w /\ aborts w' = aborts w).
Proof.
  intros c. split.
  - unfold Revised.RecoverPanic, Revised.FromGin, Revised.FromContext,
      Revised.Safe, Revised.Noop, Revised.WithError, Revised.Error, Revised.log,
      Revised.startSpanIfNeeded.
    mrun. heap_simpl. eexists. split; [reflexivity|]. done.
  - unfold EotelGo.RecoverPanic, EotelGo.FromGin, EotelGo.FromContext,
      EotelGo.New, EotelGo.WithError, initMetrics.
    mrun. heap_simpl. eexists. split; [reflexivity|]. done.
Qed.

(** * At most one span per handle *)

Ltac span_frame_tac :=
  intros w h Hp; munfold; cbn -[lookup insert alter length bool_decide];
  repeat (case_match; simplify_eq; cbn -[lookup insert alter length bool_decide]);
  rewrite ?length_alter; eauto.

Lemma span_frame_load p l : span_frame p (load l).
Proof. unfold load. span_frame_tac. Qed.

Lemma span_frame_store p l f :
  (forall h, span (f h) = span h) -> span_frame p (store l f).
Proof.
  intros Hf w h Hp. unfold store.
  destruct l as [q|]; [|cbn; eauto].
  destruct (heap w !! q) as [hq|] eqn:Hq; [|cbn; eauto].
  cbn -[lookup insert]. destruct (decide (q = p)) as [->|Hne].
  - rewrite (lookup_insert_same _ _ _ _ Hp). eexists. split; [done|].
    split; [|done]. rewrite Hf. congruence.
  - rewrite list_lookup_insert_ne by done. eauto.
Qed.

Lemma span_frame_span_call p s c : span_frame p (span_call s c).
Proof. unfold span_call. span_frame_tac. Qed.
Lemma span_frame_span_SpanContext p s : span_frame p (span_SpanContext s).
Proof. unfold span_SpanContext. span_frame_tac. Qed.
Lemma span_frame_zap_switch p lg level msg fs : span_frame p (zap_switch lg level msg fs).
Proof. unfold zap_switch, zap_Fatal, zap_write. span_frame_tac. Qed.
Lemma span_frame_counter_Add p c n level : span_frame p (counter_Add c n level).
Proof. unfold counter_Add. span_frame_tac. Qed.
Lemma span_frame_histogram_Record p x d level : span_frame p (histogram_Record x d level).
Proof. unfold histogram_Record. span_frame_tac. Qed.
Lemma span_frame_Exporter_Send p e level msg t s :
  span_frame p (Exporter_Send e level msg t s).
Proof. unfold Exporter_Send. span_frame_tac. Qed.
Lemma span_frame_Exporter_CaptureError p x e tags extras :
  span_frame p (Exporter_CaptureError x e tags extras).
Proof. unfold Exporter_CaptureError, CaptureError. span_frame_tac. Qed.
Lemma span_frame_printf p line :
  span_frame p (put_world (fun w => set_stdout (stdout w ++ [line]) w)).
Proof. span_frame_tac. Qed.

Lemma span_frame_cfg p : span_frame p cfg.
Proof. span_frame_tac. Qed.

Create HintDb span_frame.
#[local] Hint Resolve span_frame_load span_frame_span_call
  span_frame_span_SpanContext span_frame_zap_switch span_frame_counter_Add
  span_frame_histogram_Record span_frame_Exporter_Send
  span_frame_Exporter_CaptureError span_frame_printf span_frame_cfg : span_frame.

Lemma inv_span_state_frame {A} p s n (m : M A) :
  span_frame p m -> inv (span_state p s n) m.
Proof.
  intros Hm w (h & Hp & Hs & Hn). destruct (Hm w h Hp) as (h' & Hp' & Hs' & Hn').
  assert (span_state p s n (world_of (m w))) as Hw.
  { exists h'. repeat split; congruence. }
  by destruct (m w).
Qed.


Section SpanStart.
Variable p : loc.

(** With a span already held, [startSpanIfNeeded] does nothing. *)
Lemma Revised_startSpanIfNeeded_held s n :
  inv (span_state p (Some s) n) (Revised.startSpanIfNeeded (Some p)).
Proof.
  intros w (h & Hp & Hs & Hn). unfold Revised.startSpanIfNeeded. mrun.
  rewrite Hp. cbn. rewrite Hs. exists h. done.
Qed.

Lemma EotelGo_startSpanIfNeeded_held s n :
  inv (span_state p (Some s) n) (EotelGo.startSpanIfNeeded (Some p)).
Proof. apply Revised_startSpanIfNeeded_held. Qed.


End SpanStart.

(** The methods keep any invariant that the span-neutral primitives and
    [startSpanIfNeeded] keep. *)
Section SpanInvariant.
Variables (p : loc) (I : World -> Prop).
Hypothesis I_frame : forall A (m : M A), span_frame p m -> inv I m.
Hypothesis I_start_R : inv I (Revised.startSpanIfNeeded (Some p)).
Hypothesis I_start_E : inv I (EotelGo.startSpanIfNeeded (Some p)).

Ltac span_leaf :=
  apply I_frame;
  first
    [ solve [auto with span_frame]
    | apply span_frame_store; intros; reflexivity ].

Ltac span_all := repeat inv_step_with span_leaf.

Lemma Revised_endSpan_span msg level : inv I (Revised.endSpan (Some p) msg level).
Proof. unfold Revised.endSpan. span_all. Qed.

Lemma Revised_log_span level msg : inv I (Revised.log (Some p) level msg).
Proof.
  unfold Revised.log.
  apply inv_bind; [apply I_start_R|intros _].
  do 5 (apply inv_bind; [span_all|intros ?]).
  apply Revised_endSpan_span.
Qed.

Lemma Revised_WithField_span k v : inv I (Revised.WithField (Some p) k v).
Proof. unfold Revised.WithField. span_all. Qed.

Lemma Revised_WithFields_span m : inv I (Revised.WithFields (Some p) m).
Proof.
  unfold Revised.WithFields. apply inv_bind; [|intros; apply inv_ret].
  induction m as [|[k v] m IH]; cbn [Revised.WithFields_range]; [apply inv_ret|].
  apply inv_bind; [apply Revised_WithField_span|by intros].
Qed.

Lemma Revised_WithError_span e : inv I (Revised.WithError (Some p) e).
Proof. unfold Revised.WithError. span_all. Qed.

Lemma Revised_Fatal_span msg : inv I (Revised.Fatal (Some p) msg).
Proof.
  unfold Revised.Fatal.
  apply inv_bind; [apply Revised_log_span|intros _]. span_all.
Qed.

Lemma Revised_calls_span cs : inv I (Revised.calls (Some p) cs).
Proof.
  induction cs as [|c cs IH]; cbn [Revised.calls]; [apply inv_ret|].
  apply inv_bind; [|by intros].
  destruct c as [k v|m|e|[] msg|msg]; cbn [Revised.call].
  - apply inv_bind; [apply Revised_WithField_span|intros; apply inv_ret].
  - apply inv_bind; [apply Revised_WithFields_span|intros; apply inv_ret].
  - apply inv_bind; [apply Revised_WithError_span|intros; apply inv_ret].
  - apply Revised_log_span.
  - apply Revised_log_span.
  - apply Revised_log_span.
  - apply Revised_log_span.
  - apply Revised_Fatal_span.
Qed.







End SpanInvariant.

(** The first [startSpanIfNeeded] of a handle with a tracer, exactly. *)
Lemma Revised_startSpanIfNeeded_starts p h t w :
  heap w !! p = Some h -> span h = None -> tracer h = Some t ->
  Revised.startSpanIfNeeded (Some p) w = Ok tt (span_started p h w).
Proof.
  intros Hp Hs Ht. unfold Revised.startSpanIfNeeded, span_started. mrun.
  heap_simpl. rewrite Hs, Ht. heap_simpl. reflexivity.
Qed.

Lemma startSpanIfNeeded_again p h w :
  heap w !! p = Some h -> is_Some (span h) ->
  Revised.startSpanIfNeeded (Some p) w = Ok tt w.
Proof.
  intros Hp [s Hs]. unfold Revised.startSpanIfNeeded. mrun. heap_simpl.
  by rewrite Hs.
Qed.

Lemma span_started_lookup p h w :
  heap w !! p = Some h ->
  heap (span_started p h w) !! p =
    Some (set_span (Some (length (spans w)))
            (set_ctx (mkContext (Some (length (spans w))) (ctx_logger (ctx h))) h)).
Proof. intros Hp. unfold span_started. cbn. by apply (lookup_insert_same _ _ _ _ Hp). Qed.

Lemma bind_same_from {A B} (m : M A) (k : A -> M B) a w w1 :
  m w = Ok a w1 -> m w1 = Ok a w1 -> (m ≫= k) w = (m ≫= k) w1.
Proof. intros H H1. unfold mbind, M_bind, bind. by rewrite H, H1. Qed.

(** A logging call that has to start the span behaves as the same call
    made once the span is started. *)
Lemma Revised_log_after_start p h t level msg w :
  heap w !! p = Some h -> span h = None -> tracer h = Some t ->
  Revised.log (Some p) level msg w = Revised.log (Some p) level msg (span_started p h w).
Proof.
  intros Hp Hs Ht. unfold Revised.log.
  apply (bind_same_from _ _ tt).
  - by apply (Revised_startSpanIfNeeded_starts p h t).
  - apply (startSpanIfNeeded_again p _ _ (span_started_lookup p h w Hp)). by eexists.
Qed.



Lemma call_log_is_log_R p sev msg :
  Revised.call (Some p) (CallLog sev msg) = Revised.log (Some p) (severity_string sev) msg.
Proof. by destruct sev. Qed.

Lemma call_log_is_log_E p sev msg :
  EotelGo.call (Some p) (CallLog sev msg) = EotelGo.log (Some p) (severity_string sev) msg.
Proof. by destruct sev. Qed.



(** * What a logging call does *)

Lemma alter_add_call c s (l : list Span) :
  alter (add_call c) s l = alter (add_calls [c]) s l.
Proof. by apply list_alter_ext. Qed.

Lemma alter_add_calls_app cs1 cs2 s (l : list Span) :
  alter (add_calls cs2) s (alter (add_calls cs1) s l) = alter (add_calls (cs1 ++ cs2)) s l.
Proof.
  rewrite list_alter_alter_eq. apply list_alter_ext; [|done].
  intros sp _. unfold add_calls, compose. cbn. by rewrite <- app_assoc.
Qed.


Lemma severity_in_four sev : severity_string sev ∈ four_levels.
Proof. destruct sev; unfold four_levels; set_solver. Qed.

Ltac log_simpl :=
  repeat first
    [ rewrite alter_add_call
    | rewrite alter_add_calls_app
    | heap_simpl ].

(** A logging call of the revised handle on a handle that holds its
    span: it returns, and this is the world it leaves. *)
Lemma Revised_log_held (p : loc) (h : Eotel) (s : SpanRef) level msg w :
  heap w !! p = Some h -> span h = Some s -> instruments_ok h ->
  level ∈ four_levels ->
  exists w',
    Revised.log (Some p) level msg w = Ok tt w' /\
    let d := now w - start h in
    let flushed := SliceStable (attrs h ++ synthesized_attrs msg level d) in
    heap w' = <[p := set_attrs flushed h]> (heap w) /\
    spans w' = alter (add_calls (end_calls true flushed (err h))) s (spans w) /\
    zap_out w' = zap_out w ++ written h (log_line (globalCfg w) (context_of w s) level msg h) /\
    metrics w' = metrics w ++ measured h level d /\
    globalCfg w' = globalCfg w /\ now w' = now w /\ sentry w' = sentry w /\
    aborts w' = aborts w /\ stdout w' = stdout w /\
    (EnableLoki (globalCfg w) && bool_decide (exporter h ≠ None) = false ->
     logChan w' = logChan w).
Proof.
  intros Hp Hs Hi Hl.
  destruct h as [c lg tr m sp lc dh fs ats e nm st ex].
  unfold instruments_ok in Hi. cbn in Hs, Hi. subst sp.
  unfold Revised.log, Revised.startSpanIfNeeded, Revised.endSpan, zap_switch,
    zap_Fatal, Exporter_Send, written, measured, log_line, context_of.
  rewrite (bool_decide_eq_true_2 _ Hl).
  mrun. heap_simpl.
  destruct (spans w !! s) as [sp|] eqn:Esp; heap_simpl;
  destruct lg as [[]|]; heap_simpl;
  destruct (EnableLoki (globalCfg w)) eqn:Eloki; heap_simpl;
  destruct ex as [[]|]; heap_simpl;
  repeat (case_bool_decide; try congruence); heap_simpl;
  repeat case_decide; heap_simpl;
  destruct e as [e|]; log_simpl;
  destruct m as [m|]; log_simpl;
  try (destruct Hi as [Hc Hd]; [done|];
       destruct lc as [lc|]; [|done];
       destruct dh as [dh|]; [|done]; log_simpl);
  (eexists; split; [reflexivity|]; cbn -[SliceStable synthesized_attrs synthesized_fields];
   rewrite ?app_nil_r, <- ?app_assoc; repeat split; try done).
Qed.
Lemma EotelGo_log_held (p : loc) (h : Eotel) (s : SpanRef) level msg w :
  heap w !! p = Some h -> span h = Some s ->
  logger h ≠ None -> logCounter h ≠ None -> durationHist h ≠ None ->
  (EnableLoki (globalCfg w) = true -> exporter h ≠ None) ->
  level ∈ four_levels ->
  exists w',
    EotelGo.log (Some p) level msg w = Ok tt w' /\
    let d := now w - start h in
    let flushed := SliceStable (attrs h ++ synthesized_attrs msg level d) in
    heap w' = <[p := set_attrs flushed h]> (heap w) /\
    spans w' = alter (add_calls (end_calls false flushed (err h))) s (spans w) /\
    globalCfg w' = globalCfg w /\ now w' = now w.
Proof.
  intros Hp Hs Hlg Hlc Hdh Hex Hl.
  destruct h as [c lg tr m sp lc dh fs ats e nm st ex].
  cbn in Hs, Hlg, Hlc, Hdh, Hex. subst sp.
  destruct lg as [lg|]; [|done]. destruct lc as [lc|]; [|done].
  destruct dh as [dh|]; [|done].
  unfold EotelGo.log, EotelGo.startSpanIfNeeded, EotelGo.endSpan, zap_switch,
    zap_Fatal, Exporter_Send.
  rewrite (bool_decide_eq_true_2 _ Hl).
  mrun. heap_simpl.
  destruct (spans w !! s) as [sp|] eqn:Esp; heap_simpl;
  destruct lg; heap_simpl;
  destruct (EnableLoki (globalCfg w)) eqn:Eloki; heap_simpl;
  try (destruct ex as [[]|]; [|by destruct Hex]); heap_simpl;
  repeat case_decide; heap_simpl;
  destruct e as [e|]; log_simpl;
  (eexists; split; [reflexivity|]; cbn -[SliceStable synthesized_attrs synthesized_fields];
   rewrite ?app_nil_r, <- ?app_assoc; repeat split; try done).
Qed.

(** * Field and error calls on the revised handle *)

Lemma accumulate_nil h : accumulate [] [] h = h.
Proof. unfold accumulate. rewrite !app_nil_r. by destruct h. Qed.

Lemma accumulate_accumulate fs1 kvs1 fs2 kvs2 h :
  accumulate fs2 kvs2 (accumulate fs1 kvs1 h) = accumulate (fs1 ++ fs2) (kvs1 ++ kvs2) h.
Proof. unfold accumulate. cbn. by rewrite !app_assoc. Qed.

Lemma set_heap_set_heap hp hp' w : set_heap hp (set_heap hp' w) = set_heap hp w.
Proof. reflexivity. Qed.

Lemma field_fields_cons k v m :
  field_fields ((k, v) :: m) = field_fields [(k, v)] ++ field_fields m.
Proof.
  unfold field_fields. change ((k, v) :: m) with ([(k, v)] ++ m).
  by rewrite filter_app, map_app.
Qed.

Lemma field_attrs_cons k v m :
  field_attrs ((k, v) :: m) = field_attrs [(k, v)] ++ field_attrs m.
Proof.
  unfold field_attrs. change ((k, v) :: m) with ([(k, v)] ++ m).
  by rewrite filter_app, map_app.
Qed.

Lemma Revised_WithField_exact p h k v w :
  heap w !! p = Some h ->
  Revised.WithField (Some p) k v w =
    Ok (Some p)
       (set_heap (<[p := accumulate (field_fields [(k, v)]) (field_attrs [(k, v)]) h]> (heap w)) w).
Proof.
  intros Hp. unfold Revised.WithField, field_fields, field_attrs.
  cbn [filter list_filter fst]. case_bool_decide as Hk.
  - rewrite decide_False by (intros H; by apply H).
    cbn. rewrite accumulate_nil. by rewrite set_heap_insert_id.
  - rewrite decide_True by done.
    mrun. heap_simpl. reflexivity.
Qed.

Lemma Revised_WithFields_range_exact p m : forall h w,
  heap w !! p = Some h ->
  Revised.WithFields_range (Some p) m w =
    Ok tt (set_heap (<[p := accumulate (field_fields m) (field_attrs m) h]> (heap w)) w).
Proof.
  induction m as [|[k v] m IH]; intros h w Hp.
  - cbn. rewrite accumulate_nil. by rewrite set_heap_insert_id.
  - cbn [Revised.WithFields_range]. unfold mbind, M_bind, bind.
    rewrite (Revised_WithField_exact p h k v w Hp).
    erewrite IH by (cbn [heap set_heap]; by apply (lookup_insert_same _ _ _ _ Hp)).
    cbn [heap set_heap]. rewrite list_insert_insert_eq, accumulate_accumulate.
    by rewrite set_heap_set_heap, <- field_fields_cons, <- field_attrs_cons.
Qed.

(** Field calls return and only grow the two accumulators. *)
Lemma Revised_field_calls_exact p cs : forall h w,
  heap w !! p = Some h -> forallb is_field_call cs = true ->
  Revised.calls (Some p) cs w =
    Ok tt (set_heap (<[p := accumulate (calls_fields cs) (calls_attrs cs) h]> (heap w)) w).
Proof.
  induction cs as [|c cs IH]; intros h w Hp Hcs.
  - cbn. rewrite accumulate_nil. by rewrite set_heap_insert_id.
  - cbn in Hcs. apply andb_prop in Hcs as [Hc Hcs].
    cbn [Revised.calls]. unfold mbind at 1, M_bind at 1, bind at 1.
    assert (Revised.call (Some p) c w =
            Ok tt (set_heap (<[p := accumulate (call_fields c) (call_attrs c) h]> (heap w)) w))
      as ->.
    { destruct c as [k v|m| | |]; try done; cbn [Revised.call call_fields call_attrs].
      - unfold mbind, M_bind, bind. by rewrite (Revised_WithField_exact p h k v w Hp).
      - unfold Revised.WithFields, mbind, M_bind, bind.
        by rewrite (Revised_WithFields_range_exact p m h w Hp). }
    erewrite IH; [|cbn [heap set_heap]; by apply (lookup_insert_same _ _ _ _ Hp)|done].
    cbn [heap set_heap]. rewrite list_insert_insert_eq, accumulate_accumulate.
    reflexivity.
Qed.
(** * Field calls of src/eotel.go *)

Lemma EotelGo_WithFields_range_exact p m : forall h w,
  heap w !! p = Some h ->
  EotelGo.WithFields_range (Some p) m w =
    Ok tt (set_heap (<[p := accumulate (raw_fields m) (raw_attrs m) h]> (heap w)) w).
Proof.
  induction m as [|[k v] m IH]; intros h w Hp.
  - cbn. rewrite accumulate_nil. by rewrite set_heap_insert_id.
  - cbn [EotelGo.WithFields_range]. unfold mbind, M_bind, bind.
    rewrite (EotelGo_WithField_exact p h k v w Hp).
    erewrite IH by (cbn [heap set_heap]; by apply (lookup_insert_same _ _ _ _ Hp)).
    cbn [heap set_heap]. rewrite list_insert_insert_eq.
    change (set_attrs (attrs h ++ [attribute_String k (Sprintf_v v)])
              (set_fields (fields h ++ [zap_Any k v]) h))
      with (accumulate (raw_fields [(k, v)]) (raw_attrs [(k, v)]) h).
    rewrite accumulate_accumulate. reflexivity.
Qed.

Lemma EotelGo_field_calls_exact p cs : forall h w,
  heap w !! p = Some h -> forallb is_field_call cs = true ->
  EotelGo.calls (Some p) cs w =
    Ok tt (set_heap (<[p := accumulate (raw_calls_fields cs) (raw_calls_attrs cs) h]> (heap w)) w).
Proof.
  induction cs as [|c cs IH]; intros h w Hp Hcs.
  - cbn. rewrite accumulate_nil. by rewrite set_heap_insert_id.
  - cbn in Hcs. apply andb_prop in Hcs as [Hc Hcs].
    cbn [EotelGo.calls]. unfold mbind at 1, M_bind at 1, bind at 1.
    assert (EotelGo.call (Some p) c w =
            Ok tt (set_heap (<[p := accumulate (raw_call_fields c) (raw_call_attrs c) h]>
                               (heap w)) w))
      as ->.
    { destruct c as [k v|m| | |]; try done; cbn [EotelGo.call raw_call_fields raw_call_attrs].
      - unfold mbind, M_bind, bind. by rewrite (EotelGo_WithField_exact p h k v w Hp).
      - unfold EotelGo.WithFields, mbind, M_bind, bind.
        by rewrite (EotelGo_WithFields_range_exact p m h w Hp). }
    erewrite IH; [|cbn [heap set_heap]; by apply (lookup_insert_same _ _ _ _ Hp)|done].
    cbn [heap set_heap]. rewrite list_insert_insert_eq, accumulate_accumulate.
    reflexivity.
Qed.

(** * [sort.SliceStable] by key *)

Lemma ltb_asym a b : String.ltb a b = true -> String.ltb b a = false.
Proof.
  unfold String.ltb. rewrite (String.compare_antisym b a).
  by destruct (String.compare a b).
Qed.

Lemma ltb_irrefl a : String.ltb a a = false.
Proof. destruct (String.ltb a a) eqn:E; [|done]. by rewrite (ltb_asym a a E) in E. Qed.

Lemma ltb_lt a b : String.ltb a b = true <-> String_as_OT.lt a b.
Proof.
  rewrite <- String_as_OT.cmp_lt. unfold String_as_OT.cmp, String.ltb.
  destruct (String.compare a b); split; congruence.
Qed.

Lemma ltb_trans a b c :
  String.ltb a b = true -> String.ltb b c = true -> String.ltb a c = true.
Proof. rewrite !ltb_lt. apply String_as_OT.lt_trans. Qed.

Lemma ltb_total a b : String.ltb a b = false -> String.ltb b a = false -> a = b.
Proof.
  unfold String.ltb. rewrite (String.compare_antisym b a).
  destruct (String.compare a b) eqn:E; cbn; try done.
  intros _ _. by apply String.compare_eq_iff.
Qed.

Lemma key_le_refl a : key_le a a.
Proof. apply ltb_irrefl. Qed.

Lemma key_le_trans a b c : key_le a b -> key_le b c -> key_le a c.
Proof.
  unfold key_le, key_less. intros Hab Hbc.
  destruct (String.ltb (Key c) (Key a)) eqn:Hca; [|done].
  destruct (String.ltb (Key c) (Key b)) eqn:Hcb; [congruence|].
  destruct (String.ltb (Key a) (Key b)) eqn:Hab'.
  - by rewrite (ltb_trans _ _ _ Hca Hab') in Hcb.
  - rewrite (ltb_total _ _ Hab' Hab) in Hca. congruence.
Qed.

Lemma key_less_le a b : key_less a b = true -> key_le a b.
Proof. apply ltb_asym. Qed.



Lemma stable_insert_HdRel a x l :
  key_le a x -> HdRel key_le a l -> HdRel key_le a (stable_insert x l).
Proof.
  intros Hax Hl. destruct l as [|y l]; cbn; [by constructor|].
  destruct (key_less y x); constructor; [by inversion Hl|done].
Qed.

Lemma stable_insert_Sorted x l :
  Sorted key_le l -> Sorted key_le (stable_insert x l).
Proof.
  induction l as [|y l IH]; cbn; intros Hl.
  - by repeat constructor.
  - inversion Hl as [|? ? Hs Hh]; subst.
    destruct (key_less y x) eqn:Hyx.
    + constructor; [by apply IH|].
      apply stable_insert_HdRel; [by apply key_less_le|done].
    + by repeat constructor.
Qed.

Lemma SliceStable_Sorted l : Sorted key_le (SliceStable l).
Proof.
  induction l as [|x l IH]; cbn; [constructor|by apply stable_insert_Sorted].
Qed.

Lemma SliceStable_StronglySorted l : StronglySorted key_le (SliceStable l).
Proof.
  apply Sorted_StronglySorted; [|apply SliceStable_Sorted].
  intros a b c. apply key_le_trans.
Qed.






Lemma keys_app a b : keys (a ++ b) = keys a ++ keys b.
Proof. apply map_app. Qed.

Lemma keys_synthesized msg level d :
  keys (synthesized_attrs msg level d) = synthesized_keys.
Proof. reflexivity. Qed.



(** * The flush at span end *)



Lemma marks_error_end_calls kvs e :
  marks_error (end_calls true kvs e) = bool_decide (e ≠ None).
Proof. by destruct e. Qed.

Lemma Revised_calls_app l cs1 cs2 w :
  Revised.calls l (cs1 ++ cs2) w = (Revised.calls l cs1 ≫= fun _ => Revised.calls l cs2) w.
Proof.
  revert w. induction cs1 as [|c cs1 IH]; intros w; [done|].
  cbn [app Revised.calls]. unfold mbind, M_bind, bind in *.
  destruct (Revised.call l c w); [|done..]. apply IH.
Qed.

Lemma Revised_calls_one l c w : Revised.calls l [c] w = Revised.call l c w.
Proof. cbn. unfold mbind, M_bind, bind. by destruct (Revised.call l c w) as [[]| |]. Qed.

(** The first logging call of a handle with a tracer: the span is
    started, flushed and ended in that call. *)
Lemma Revised_log_fresh (p : loc) (h : Eotel) level msg w :
  heap w !! p = Some h -> span h = None -> tracer h <> None -> instruments_ok h ->
  level ∈ four_levels ->
  exists w',
    Revised.log (Some p) level msg w = Ok tt w' /\
    let s := length (spans w) in
    let d := now w - start h in
    let flushed := SliceStable (attrs h ++ synthesized_attrs msg level d) in
    heap w' !! p =
      Some (set_attrs flushed
              (set_span (Some s) (set_ctx (mkContext (Some s) (ctx_logger (ctx h))) h))) /\
    length (spans w') = S s /\
    (forall s', (s' < s)%nat -> spans w' !! s' = spans w !! s') /\
    calls_of w' s = end_calls true flushed (err h) /\
    (sp_name <$> spans w' !! s) = Some (name h) /\
    sp_parent <$> spans w' !! s = Some (ctx_span (ctx h)) /\
    zap_out w' = zap_out w ++ written h (log_line (globalCfg w) (context_of w' s) level msg h) /\
    metrics w' = metrics w ++ measured h level d /\
    globalCfg w' = globalCfg w /\ now w' = now w.
Proof.
  intros Hp Hs Ht Hi Hl. destruct (tracer h) as [t|] eqn:Et; [|done].
  rewrite (Revised_log_after_start p h t level msg w Hp Hs Et).
  pose proof (span_started_lookup p h w Hp) as Hp1.
  edestruct (Revised_log_held p _ (length (spans w)) level msg _ Hp1)
    as (w' & -> & Hh & Hsp & Hz & Hm & Hc & Hn & _); [done|done|done|].
  cbn [attrs err start set_span set_ctx logger meter logCounter durationHist fields] in *.
  exists w'. split; [done|]. cbn zeta.
  unfold span_started in Hh, Hsp, Hz, Hm, Hc, Hn.
  cbn [heap spans now set_heap set_spans zap_out metrics globalCfg] in Hh, Hsp, Hz, Hm, Hc, Hn.
  rewrite alter_app_r_alt in Hsp by lia. rewrite Nat.sub_diag in Hsp. cbn in Hsp.
  repeat split.
  - rewrite Hh, list_insert_insert_eq. by apply (lookup_insert_same _ _ _ _ Hp).
  - rewrite Hsp, length_app. cbn. lia.
  - intros s' Hs'. rewrite Hsp. by rewrite lookup_app_l.
  - unfold calls_of. rewrite Hsp, list_lookup_middle by done. done.
  - rewrite Hsp, list_lookup_middle by done. done.
  - rewrite Hsp, list_lookup_middle by done. done.
  - rewrite Hz. do 2 f_equal. unfold log_line, written. f_equal.
    unfold context_of, span_started. cbn [spans set_spans set_heap].
    rewrite Hsp. by rewrite !list_lookup_middle.
  - done.
  - done.
  - done.
Qed.




(** X27.  In the revised handle a logging call marks the span errored and
    attaches the error exactly when an error is recorded on the handle;
    the severity plays no part. *)
Lemma Revised_log_marks_error_iff_recorded (p : loc) (h : Eotel) (s : SpanRef) sev msg w :
  heap w !! p = Some h -> span h = Some s -> (s < length (spans w))%nat ->
  instruments_ok h ->
  exists w' added,
    Revised.call (Some p) (CallLog sev msg) w = Ok tt w' /\
    calls_of w' s = calls_of w s ++ added /\
    marks_error added = bool_decide (err h ≠ None) /\
    records_error added = bool_decide (err h ≠ None).
Proof.
  intros Hp Hs Hlt Hi. rewrite call_log_is_log_R.
  destruct (Revised_log_held p h s (severity_string sev) msg w Hp Hs Hi)
    as (w' & Hrun & _ & Hsp & _); [apply severity_in_four|].
  exists w'. eexists. split; [done|]. cbn zeta in Hsp. split.
  - unfold calls_of. rewrite Hsp, list_lookup_alter_eq.
    destruct (lookup_lt_is_Some_2 _ _ Hlt) as [sp Hsp']. rewrite !Hsp'. done.
  - by destruct (err h).
Qed.

(** C6.  [endSpan] of src/eotel.go records the error on the span but
    never sets the span status.  With an error stored on the handle by
    [WithError] (which panics after storing it, the caller recovering),
    an error-severity log attaches the error and leaves the status
    unmarked; the revised handle marks it. *)
Theorem EotelGo_recorded_error_status_not_marked :
  let w := one_handle_world quiet_cfg (fresh_handle "payment") in
  exists w1 w2 w3,
    EotelGo.WithError (Some 0%nat) (Some "declined") w = Panicked nil_dereference w1 /\
    EotelGo.Error (Some 0%nat) "declined" w1 = Ok tt w2 /\
    records_error (calls_of w2 0%nat) = true /\
    marks_error (calls_of w2 0%nat) = false /\
    Revised.Error (Some 0%nat) "declined" w1 = Ok tt w3 /\
    marks_error (calls_of w3 0%nat) = true.
Proof.
  intros w. do 3 eexists.
  split; [vm_compute; reflexivity|].
  split; [vm_compute; reflexivity|].
  split; [reflexivity|]. split; [reflexivity|].
  split; [vm_compute; reflexivity|]. reflexivity.
Qed.

(** * Forking a child handle *)

Lemma Revised_Child_exact (p : loc) (h : Eotel) (nm : string) w :
  heap w !! p = Some h ->
  let s := length (spans w) in
  Revised.Child (Some p) nm w =
    Ok (Some (length (heap w)))
       (set_heap (heap w ++ [child_of (globalCfg w) h nm s (now w)])
          (set_spans
             (spans w ++ [mkSpan nm (joined_trace w (ctx h) s) (ctx_span (ctx h)) []]) w)).
Proof.
  intros Hp s. unfold Revised.Child, child_of, joined_trace. mrun. heap_simpl.
  by destruct (tracer h).
Qed.




(** * Further properties of the handle *)

(** ** Handles in contexts *)

(** X1.  A handle injected into a context is the handle [FromContext]
    returns, in both handle files, without allocating anything; the span
    the context carries is kept by [Inject]. *)
Theorem Inject_FromContext_round_trip (c : Context) (p : loc) (l : option loc)
    (nm : string) (w : World) :
  Revised.FromContext (Revised.Inject c (Some p)) nm w = Ok (Some p) w /\
  EotelGo.FromContext l (EotelGo.Inject l c (Some p)) nm w = Ok (Some p) w /\
  ctx_span (Revised.Inject c (Some p)) = ctx_span c /\
  ctx_span (EotelGo.Inject l c (Some p)) = ctx_span c.
Proof. repeat split. Qed.

(** X2.  Without a handle in the context, or with a nil one injected,
    the revised [FromContext] allocates one new handle, the no-op handle,
    and returns it; the handles in place stay as they are.  [FromContext]
    of src/eotel.go returns the injected nil pointer as it is, and
    without a value makes a full handle on the given context. *)
Theorem FromContext_fallback (s : option SpanRef) (l : option loc) (nm : string) (w : World) :
  let fresh := set_heap (heap w ++ [noop_handle nm (now w)]) w in
  Revised.FromContext (mkContext s None) nm w = Ok (Some (length (heap w))) fresh /\
  Revised.FromContext (mkContext s (Some None)) nm w = Ok (Some (length (heap w))) fresh /\
  (forall q, (q < length (heap w))%nat -> heap fresh !! q = heap w !! q) /\
  EotelGo.FromContext l (mkContext s (Some None)) nm w = Ok None w /\
  EotelGo.FromContext l (mkContext s None) nm w = EotelGo.New (mkContext s None) nm w.
Proof.
  intros fresh. repeat split.
  intros q Hq. subst fresh. cbn [heap set_heap]. by rewrite lookup_app_l.
Qed.

Lemma FromContext_fallback_witness :
  let w := one_handle_world example_cfg (fresh_handle "checkout") in
  heap (set_heap (heap w ++ [noop_handle "job" (now w)]) w) !! 0%nat = heap w !! 0%nat.
Proof.
  intros w.
  destruct (FromContext_fallback None None "job" w) as (_ & _ & H & _).
  apply H. cbn. lia.
Defined.

(** X3.  [Safe] returns a non-nil handle: the one given, untouched, or a
    new no-op handle for nil. *)
Theorem Safe_never_nil (l : option loc) (w : World) :
  exists p w', Revised.Safe l w = Ok (Some p) w' /\
    (forall q, l = Some q -> p = q /\ w' = w) /\
    (l = None -> p = length (heap w) /\
       w' = set_heap (heap w ++ [noop_handle "safe" (now w)]) w).
Proof.
  destruct l as [q|]; do 2 eexists; (split; [reflexivity|]); split;
    try done; intros; by simplify_eq.
Qed.

Lemma Safe_never_nil_witness :
  let w := one_handle_world example_cfg (fresh_handle "checkout") in
  Revised.Safe (Some 0%nat) w = Ok (Some 0%nat) w.
Proof.
  intros w.
  destruct (Safe_never_nil (Some 0%nat) w) as (p & w' & Hrun & H & _).
  destruct (H 0%nat eq_refl) as [Hp Hw]. rewrite Hp, Hw in Hrun. exact Hrun.
Defined.

(** ** The nil receiver *)

(** X5.  The nil guards of the revised file are not everywhere: on a nil
    handle [WithField] and [Child] return a new no-op handle, but
    [WithError] with an error, [Fatal] and [TraceName] dereference nil
    and panic; [Fatal] has printed its line by then and does not exit. *)
Theorem nil_handle_guards (key nm msg emsg : string) (value : any) (w : World) :
  Revised.WithField None key value w =
    Ok (Some (length (heap w)))
       (set_heap (heap w ++ [noop_handle "WithField" (now w)]) w) /\
  Revised.Child None nm w =
    Ok (Some (length (heap w))) (set_heap (heap w ++ [noop_handle nm (now w)]) w) /\
  Revised.WithError None (Some emsg) w = Panicked nil_dereference w /\
  Revised.TraceName None nm w = Panicked nil_dereference w /\
  Revised.Fatal None msg w =
    Panicked nil_dereference (set_stdout (stdout w ++ ["[fatal] " +:+ msg]) w).
Proof. repeat split. Qed.

(** ** Logging on a usable handle *)

Lemma context_of_alter f s s' w w' :
  (forall sp, sp_trace (f sp) = sp_trace sp) ->
  spans w' = alter f s' (spans w) ->
  context_of w' s = context_of w s.
Proof.
  intros Hf Hsp. unfold context_of. rewrite Hsp.
  destruct (decide (s' = s)) as [->|Hne].
  - rewrite list_lookup_alter_eq. destruct (spans w !! s); cbn; [by rewrite Hf|done].
  - by rewrite list_lookup_alter_ne.
Qed.

(** A logging call on a usable handle returns; [logged] tells what it leaves. *)
Lemma Revised_log_usable (p : loc) (h : Eotel) level msg w :
  heap w !! p = Some h -> usable h -> level ∈ four_levels ->
  exists w', Revised.log (Some p) level msg w = Ok tt w' /\ logged p h level msg w w'.
Proof.
  intros Hp [Hst Hi] Hl. destruct (span h) as [s|] eqn:Hs.
  - destruct (Revised_log_held p h s level msg w Hp Hs Hi Hl)
      as (w' & Hrun & Hh & Hsp & Hz & Hm & Hc & Hn & Hse & Hab & Hso & _).
    exists w'. split; [done|]. exists s. unfold after_log. rewrite Hs.
    cbn zeta in *. repeat split; try done.
    + rewrite Hh. by apply (lookup_insert_same _ _ _ _ Hp).
    + by rewrite Hh, length_insert.
    + intros q Hq. rewrite Hh. by rewrite list_lookup_insert_ne.
    + rewrite Hz. do 3 f_equal. symmetry.
      eapply context_of_alter; [|exact Hsp]; done.
  - destruct Hst as [Hst|Hst]; [done|].
    destruct (tracer h) as [t|] eqn:Et; [|done].
    rewrite (Revised_log_after_start p h t level msg w Hp Hs Et).
    pose proof (span_started_lookup p h w Hp) as Hp1.
    edestruct (Revised_log_held p _ (length (spans w)) level msg _ Hp1)
      as (w' & Hrun & Hh & Hsp & Hz & Hm & Hc & Hn & Hse & Hab & Hso & _);
      [done|done|done|].
    assert (context_of w' (length (spans w)) =
            context_of (span_started p h w) (length (spans w))) as Hctx
      by (eapply context_of_alter; [|exact Hsp]; done).
    rewrite <- Hctx in Hz. clear Hctx Hsp.
    exists w'. split; [done|]. exists (length (spans w)). unfold after_log. rewrite Hs.
    cbn zeta in *.
    cbn [attrs err start set_span set_ctx logger meter logCounter durationHist fields] in *.
    unfold written, measured, log_line in *.
    cbn [attrs err start set_span set_ctx logger meter logCounter durationHist fields] in *.
    unfold span_started in Hh, Hz, Hm, Hc, Hn, Hse, Hab, Hso.
    cbn [heap spans now set_heap set_spans zap_out metrics globalCfg sentry aborts stdout]
      in Hh, Hz, Hm, Hc, Hn, Hse, Hab, Hso.
    repeat split; try done.
    + rewrite Hh, list_insert_insert_eq. by apply (lookup_insert_same _ _ _ _ Hp).
    + by rewrite Hh, !length_insert.
    + intros q Hq. rewrite Hh. by rewrite !list_lookup_insert_ne.
Qed.

Lemma usable_accumulate fs kvs h : usable h -> usable (accumulate fs kvs h).
Proof. done. Qed.

Lemma same_wiring_refl h : same_wiring h h.
Proof. done. Qed.

Lemma same_wiring_trans h1 h2 h3 : same_wiring h1 h2 -> same_wiring h2 h3 -> same_wiring h1 h3.
Proof. unfold same_wiring. intros. destruct_and!. repeat split; congruence. Qed.

Lemma measured_same_wiring h h' level d : same_wiring h h' -> measured h' level d = measured h level d.
Proof. unfold same_wiring, measured. intros. destruct_and!. by repeat match goal with H : _ = _ |- _ => rewrite H; clear H end. Qed.

(** One call that is not [Fatal], on a usable handle: it returns, the
    handle stays usable, and this is what changed. *)
Lemma Revised_call_step (p : loc) (h : Eotel) (c : Call) w :
  heap w !! p = Some h -> usable h -> no_fatal c = true ->
  exists w' h',
    Revised.call (Some p) c w = Ok tt w' /\
    heap w' !! p = Some h' /\ usable h' /\ same_wiring h h' /\
    err h' = calls_err (err h) [c] /\
    fields h' = fields h ++ call_fields c /\
    (is_log c = false -> attrs h' = attrs h ++ call_attrs c /\ span h' = span h /\
                         spans w' = spans w /\ zap_out w' = zap_out w) /\
    metrics w' = metrics w ++ calls_metrics h (now w - start h) [c] /\
    now w' = now w /\ globalCfg w' = globalCfg w /\
    length (heap w') = length (heap w) /\
    aborts w' = aborts w /\ stdout w' = stdout w.
Proof.
  intros Hp Hu Hc. destruct c as [k v|m|[e|]|sev msg|msg]; [| | | | |done].
  - cbn [Revised.call]. unfold mbind, M_bind, bind.
    rewrite (Revised_WithField_exact p h k v w Hp).
    do 2 eexists. split; [reflexivity|]. cbn -[field_fields field_attrs].
    rewrite (lookup_insert_same _ _ _ _ Hp), length_insert, app_nil_r. done.
  - cbn [Revised.call]. unfold Revised.WithFields, mbind, M_bind, bind.
    rewrite (Revised_WithFields_range_exact p m h w Hp).
    do 2 eexists. split; [reflexivity|]. cbn -[field_fields field_attrs].
    rewrite (lookup_insert_same _ _ _ _ Hp), length_insert, app_nil_r. done.
  - cbn [Revised.call]. unfold mbind, M_bind, bind.
    rewrite (Revised_WithError_exact p h e w Hp).
    do 2 eexists. split; [reflexivity|]. cbn.
    rewrite (lookup_insert_same _ _ _ _ Hp), length_insert, app_nil_r. done.
  - exists w, h. cbn. rewrite !app_nil_r. done.
  - rewrite call_log_is_log_R.
    destruct (Revised_log_usable p h (severity_string sev) msg w Hp Hu)
      as (w' & Hrun & s & Hs & Hh & Hlen & _ & Hz & Hm & Hg & Hn & Hse & Hab & Hso);
      [apply severity_in_four|].
    exists w'. eexists. split; [done|]. split; [done|].
    destruct Hu as [Hst Hi]. unfold after_log.
    destruct (span h) eqn:E; cbn; rewrite ?E, ?app_nil_r;
      (split; [split; [left; cbn; by rewrite ?E|done]|]); repeat split; done.
Qed.

Lemma calls_metrics_same_wiring h h' d cs :
  same_wiring h h' -> calls_metrics h' d cs = calls_metrics h d cs.
Proof.
  intros Hw. unfold calls_metrics. induction cs as [|c cs IH]; [done|].
  cbn. rewrite IH. destruct c; try done. by rewrite (measured_same_wiring h h').
Qed.

(** Any sequence of calls without [Fatal] on a usable handle. *)
Lemma Revised_calls_usable (p : loc) (cs : list Call) : forall (h : Eotel) w,
  heap w !! p = Some h -> usable h -> forallb no_fatal cs = true ->
  exists w' h',
    Revised.calls (Some p) cs w = Ok tt w' /\
    heap w' !! p = Some h' /\ usable h' /\ same_wiring h h' /\
    err h' = calls_err (err h) cs /\
    fields h' = fields h ++ calls_fields cs /\
    metrics w' = metrics w ++ calls_metrics h (now w - start h) cs /\
    now w' = now w /\ globalCfg w' = globalCfg w /\
    length (heap w') = length (heap w) /\ aborts w' = aborts w /\ stdout w' = stdout w.
Proof.
  induction cs as [|c cs IH]; intros h w Hp Hu Hcs.
  - exists w, h. cbn. rewrite !app_nil_r. done.
  - cbn in Hcs. apply andb_prop in Hcs as [Hc Hcs].
    destruct (Revised_call_step p h c w Hp Hu Hc)
      as (w1 & h1 & Hrun1 & Hp1 & Hu1 & Hw1 & He1 & Hf1 & _ & Hm1 & Hn1 & Hg1 & Hl1 & Ha1 & Hs1).
    destruct (IH h1 w1 Hp1 Hu1 Hcs)
      as (w2 & h2 & Hrun2 & Hp2 & Hu2 & Hw2 & He2 & Hf2 & Hm2 & Hn2 & Hg2 & Hl2 & Ha2 & Hs2).
    exists w2, h2. cbn [Revised.calls]. unfold mbind, M_bind, bind. rewrite Hrun1.
    split; [done|]. split; [done|]. split; [done|].
    split; [by eapply same_wiring_trans|].
    split; [by rewrite He2, He1|].
    split; [rewrite Hf2, Hf1; unfold calls_fields; cbn; by rewrite <- app_assoc|].
    split.
    { rewrite Hm2, Hm1, Hn1, (calls_metrics_same_wiring h h1) by done.
      destruct Hw1 as (_ & _ & _ & _ & _ & _ & Hst & _). rewrite Hst.
      unfold calls_metrics. cbn. by rewrite app_nil_r, <- app_assoc. }
    repeat split; congruence.
Qed.

(** X6.  On a usable handle (one that holds a span or has a tracer, with
    its instruments set if its meter is: every handle [New] or [Child]
    makes), no sequence of field calls, error calls and logging calls of
    the revised file panics or exits: it returns, and the handle is usable
    afterwards.  The error it holds is the last non-nil one given to
    [WithError], and its fields are the accumulated ones in call order. *)
Theorem usable_handle_calls_return (w : World) (p : loc) (h : Eotel) (cs : list Call) :
  heap w !! p = Some h -> usable h -> forallb no_fatal cs = true ->
  exists w' h',
    Revised.calls (Some p) cs w = Ok tt w' /\
    heap w' !! p = Some h' /\ usable h' /\
    err h' = calls_err (err h) cs /\
    fields h' = fields h ++ calls_fields cs /\
    length (heap w') = length (heap w).
Proof.
  intros Hp Hu Hcs.
  destruct (Revised_calls_usable p cs h w Hp Hu Hcs)
    as (w' & h' & Hrun & Hp' & Hu' & _ & He & Hf & _ & _ & _ & Hl & _).
  by exists w', h'.
Qed.

Lemma fresh_handle_usable nm : usable (fresh_handle nm).
Proof. split; [by right|done]. Qed.

Lemma usable_handle_calls_return_witness :
  let w := one_handle_world example_cfg (fresh_handle "checkout") in
  let cs := [CallWithError (Some "boom"); CallLog error_sev "failed";
             CallWithError (Some "again"); CallLog warn "retry"] in
  exists w' h',
    Revised.calls (Some 0%nat) cs w = Ok tt w' /\
    heap w' !! 0%nat = Some h' /\ err h' = Some "again".
Proof.
  intros w cs.
  destruct (usable_handle_calls_return w 0%nat (fresh_handle "checkout") cs eq_refl
              (fresh_handle_usable "checkout") eq_refl)
    as (w' & h' & Hrun & Hp & _ & He & _).
  exists w', h'. split; [exact Hrun|]. split; [exact Hp|exact He].
Defined.

(** X7.  Each logging call of the revised handle that has a meter adds
    one increment of the counter and one record of the histogram, both
    labelled by the severity of the call; field and error calls add none.
    Over a sequence of calls the updates appear in call order. *)
Theorem one_counter_increment_per_log
    (w : World) (p : loc) (h : Eotel) (cs : list Call)
    (m : Meter) (c : Int64Counter) (d : Float64Histogram) :
  heap w !! p = Some h -> span h ≠ None \/ tracer h ≠ None ->
  meter h = Some m -> logCounter h = Some c -> durationHist h = Some d ->
  forallb no_fatal cs = true ->
  exists w',
    Revised.calls (Some p) cs w = Ok tt w' /\
    metrics w' = metrics w ++
      flat_map (fun c' => match c' with
                          | CallLog sev _ =>
                              [CounterAdd c 1 (severity_string sev);
                               HistogramRecord d (now w - start h) (severity_string sev)]
                          | _ => []
                          end) cs.
Proof.
  intros Hp Hst Hm Hc Hd Hcs.
  assert (usable h) as Hu.
  { split; [done|]. intros _. rewrite Hc, Hd. done. }
  destruct (Revised_calls_usable p cs h w Hp Hu Hcs)
    as (w' & h' & Hrun & _ & _ & _ & _ & _ & Hmet & _).
  exists w'. split; [done|]. rewrite Hmet. f_equal.
  unfold calls_metrics, measured. by rewrite Hm, Hc, Hd.
Qed.

Lemma fresh_handle_tracer nm : tracer (fresh_handle nm) <> None.
Proof. done. Qed.

Lemma one_counter_increment_per_log_witness :
  let w := one_handle_world example_cfg (fresh_handle "checkout") in
  let cs := [CallLog info "start"; CallWithField "k" (AnyInt 1); CallLog warn "slow"] in
  exists w',
    Revised.calls (Some 0%nat) cs w = Ok tt w' /\
    length (metrics w') = 4%nat.
Proof.
  intros w cs.
  destruct (one_counter_increment_per_log w 0%nat (fresh_handle "checkout") cs
              (otel_Meter "svc") (counter_of (otel_Meter "svc") "log_total")
              (histogram_of (otel_Meter "svc") "log_duration_ms")
              eq_refl (or_intror (fresh_handle_tracer "checkout"))
              eq_refl eq_refl eq_refl eq_refl) as (w' & Hrun & Hm).
  exists w'. split; [exact Hrun|]. rewrite Hm. reflexivity.
Defined.

(** X8.  The line a logging call writes through zap carries the five
    synthesized fields first ([trace_id] and [span_id] of the handle's
    span, [job], [service], [level]) and then the accumulated fields in
    the order they were given; message, level and duration attributes of
    the span are not among the fields.  One line is written per call. *)
Theorem log_line_synthesized_then_fields
    (w : World) (p : loc) (h : Eotel) (cs : list Call) (sev : Severity) (msg : string) :
  heap w !! p = Some h -> usable h -> logger h = Some zap_L ->
  forallb is_field_call cs = true ->
  exists w' s,
    Revised.calls (Some p) (cs ++ [CallLog sev msg]) w = Ok tt w' /\
    (span <$> heap w' !! p) = Some (Some s) /\
    zap_out w' = zap_out w ++
      [mkLogLine (severity_string sev) msg
         ([zap_String "trace_id" (TraceID_String (context_of w' s));
           zap_String "span_id" (SpanID_String (context_of w' s));
           zap_String "job" (JobName (globalCfg w));
           zap_String "service" (ServiceName (globalCfg w));
           zap_String "level" (severity_string sev)]
          ++ fields h ++ calls_fields cs)].
Proof.
  intros Hp Hu Hlg Hcs.
  rewrite Revised_calls_app. unfold mbind at 1, M_bind at 1, bind at 1.
  rewrite (Revised_field_calls_exact p cs h w Hp Hcs).
  rewrite Revised_calls_one, call_log_is_log_R.
  set (h1 := accumulate (calls_fields cs) (calls_attrs cs) h).
  set (w1 := set_heap (<[p := h1]> (heap w)) w).
  assert (heap w1 !! p = Some h1) as Hp1 by (by apply (lookup_insert_same _ _ _ _ Hp)).
  destruct (Revised_log_usable p h1 (severity_string sev) msg w1 Hp1)
    as (w' & Hrun & s & Hs & Hh & _ & _ & Hz & _); [done|apply severity_in_four|].
  exists w', s. split; [done|]. split.
  - rewrite Hh. cbn. unfold after_log. change (span h1) with (span h) in *.
    destruct (span h) eqn:E; cbn; rewrite ?E; by subst.
  - rewrite Hz. unfold written, log_line, synthesized_fields.
    change (logger h1) with (logger h). rewrite Hlg. done.
Qed.

Lemma log_line_synthesized_then_fields_witness :
  let w := one_handle_world example_cfg (fresh_handle "checkout") in
  let cs := [CallWithField "user_id" (AnyInt 42); CallWithField "cart_size" (AnyInt 3)] in
  exists w' l,
    Revised.calls (Some 0%nat) (cs ++ [CallLog info "start"]) w = Ok tt w' /\
    zap_out w' = [l] /\
    map Field_key (ll_fields l) =
      ["trace_id"; "span_id"; "job"; "service"; "level"; "user_id"; "cart_size"].
Proof.
  intros w cs.
  destruct (log_line_synthesized_then_fields w 0%nat (fresh_handle "checkout") cs info "start"
              eq_refl (fresh_handle_usable "checkout") eq_refl eq_refl)
    as (w' & s & Hrun & _ & Hz).
  exists w'. eexists. split; [exact Hrun|]. split; [exact Hz|reflexivity].
Defined.

(** X4.  On a nil handle any sequence of logging calls of the revised
    file returns: each call prints its line to standard output, in
    order, and nothing else in the world changes. *)
Theorem nil_handle_logs_print (ls : list (Severity * string)) (w : World) :
  Revised.calls None (map (fun l => CallLog l.1 l.2) ls) w =
    Ok tt (set_stdout
             (stdout w ++ map (fun l => "[" +:+ severity_string l.1 +:+ "] " +:+ l.2) ls) w).
Proof.
  revert w. induction ls as [|[sev msg] ls IH]; intros w.
  - cbn. rewrite app_nil_r. by destruct w.
  - cbn [map fst snd Revised.calls]. unfold mbind, M_bind, bind.
    replace (Revised.call None (CallLog sev msg) w)
      with (Ok tt (set_stdout (stdout w ++ ["[" +:+ severity_string sev +:+ "] " +:+ msg]) w)
              : Outcome unit) by (by destruct sev).
    cbv beta iota. rewrite IH. cbn [stdout set_stdout fst snd]. rewrite <- app_assoc. done.
Qed.

(** ** Children *)

Lemma child_of_usable g h nm s t : instruments_ok h -> usable (child_of g h nm s t).
Proof. intros Hi. split; [by left|done]. Qed.

Lemma Revised_calls_keep_span p s n cs w :
  span_state p (Some s) n w -> span_state p (Some s) n (world_of (Revised.calls (Some p) cs w)).
Proof.
  intros H. apply inv_world_of; [|done].
  apply Revised_calls_span; auto using inv_span_state_frame,
    Revised_startSpanIfNeeded_held, EotelGo_startSpanIfNeeded_held.
Qed.

(** X9.  A child made by the revised [Child] can log whatever its
    parent is, the no-op fallback handle included ([Child] replaces a nil
    tracer by the global one): every sequence of calls without [Fatal] on
    it returns, and no span is started for it beyond the one [Child]
    started. *)
Theorem Revised_child_can_log
    (w : World) (p : loc) (h : Eotel) (nm : string) (cs : list Call) :
  heap w !! p = Some h -> instruments_ok h -> forallb no_fatal cs = true ->
  exists w',
    (c ← Revised.Child (Some p) nm; Revised.calls c cs) w = Ok tt w' /\
    length (spans w') = S (length (spans w)).
Proof.
  intros Hp Hi Hcs. unfold mbind, M_bind, bind.
  rewrite (Revised_Child_exact p h nm w Hp). cbv beta iota zeta.
  set (hc := child_of _ _ _ _ _). set (w1 := set_heap _ _).
  assert (heap w1 !! length (heap w) = Some hc) as Hq by apply lookup_alloc.
  destruct (Revised_calls_usable _ cs hc w1 Hq (child_of_usable _ _ _ _ _ Hi) Hcs)
    as (w' & h' & Hrun & _).
  exists w'. split; [done|].
  assert (span_state (length (heap w)) (Some (length (spans w))) (S (length (spans w))) w1)
    as Hst.
  { exists hc. split; [done|]. split; [done|]. subst w1. cbn. rewrite length_app. cbn. lia. }
  apply (Revised_calls_keep_span _ _ _ cs) in Hst. rewrite Hrun in Hst.
  by destruct Hst as (_ & _ & _ & ?).
Qed.

Lemma noop_instruments_ok nm t : instruments_ok (noop_handle nm t).
Proof. done. Qed.

Lemma Revised_child_can_log_witness :
  let w := one_handle_world example_cfg (noop_handle "panic" 1000) in
  exists w',
    (c ← Revised.Child (Some 0%nat) "payment";
     Revised.calls c [CallLog error_sev "declined"]) w = Ok tt w' /\
    length (spans w') = 1%nat.
Proof.
  intros w.
  exact (Revised_child_can_log w 0%nat (noop_handle "panic" 1000) "payment"
           [CallLog error_sev "declined"] eq_refl (noop_instruments_ok "panic" 1000) eq_refl).
Defined.

Lemma EotelGo_Child_no_tracer p h nm w :
  heap w !! p = Some h -> tracer h = None ->
  EotelGo.Child (Some p) nm w = Panicked nil_dereference w.
Proof. intros Hp Ht. unfold EotelGo.Child. mrun. heap_simpl. by rewrite Ht. Qed.

Lemma EotelGo_Child_exact p h t nm w :
  heap w !! p = Some h -> tracer h = Some t ->
  let s := length (spans w) in
  EotelGo.Child (Some p) nm w =
    Ok (Some (length (heap w)))
       (set_heap
          (heap w ++
           [{| ctx := mkContext (Some s) (ctx_logger (ctx h)); span := Some s;
               logger := logger h; tracer := tracer h; meter := meter h;
               start := now w; exporter := exporter h; logCounter := None;
               durationHist := None; fields := []; attrs := []; err := None;
               name := "" |}])
          (set_spans
             (spans w ++ [mkSpan nm (joined_trace w (ctx h) s) (ctx_span (ctx h)) []]) w)).
Proof.
  intros Hp Ht s. unfold EotelGo.Child, joined_trace. mrun. heap_simpl.
  rewrite Ht. reflexivity.
Qed.

(** X10.  In src/eotel.go [Child] does not copy the counter and the
    histogram: a logging call on a child handle panics, whatever the
    parent and the configuration. *)
Theorem EotelGo_child_log_panics
    (w : World) (p : loc) (h : Eotel) (nm : string) (sev : Severity) (msg : string) :
  heap w !! p = Some h ->
  panics ((c ← EotelGo.Child (Some p) nm; EotelGo.call c (CallLog sev msg)) w) = true.
Proof.
  intros Hp. unfold mbind at 1, M_bind at 1, bind at 1.
  destruct h as [c lg tr m sp lc dh fs ats e nm' st ex].
  destruct tr as [t|].
  2: { by rewrite (EotelGo_Child_no_tracer p _ nm w Hp eq_refl). }
  rewrite (EotelGo_Child_exact p _ t nm w Hp eq_refl). cbv beta iota zeta.
  rewrite call_log_is_log_E.
  unfold EotelGo.log, EotelGo.startSpanIfNeeded, EotelGo.endSpan, zap_switch, Exporter_Send.
  rewrite (bool_decide_eq_true_2 _ (severity_in_four sev)).
  mrun. heap_simpl. rewrite list_lookup_middle by done. heap_simpl.
  destruct lg as [[]|]; heap_simpl; [| |done];
    (destruct (EnableLoki (globalCfg w)); heap_simpl;
     [destruct ex as [[]|]; heap_simpl; [|done]|]; repeat case_decide; heap_simpl;
     reflexivity).
Qed.

Lemma EotelGo_child_log_panics_witness :
  let w := one_handle_world quiet_cfg (fresh_handle "checkout") in
  panics ((c ← EotelGo.Child (Some 0%nat) "payment";
           EotelGo.call c (CallLog info "charged")) w) = true.
Proof.
  intros w.
  exact (EotelGo_child_log_panics w 0%nat (fresh_handle "checkout") "payment" info "charged"
           eq_refl).
Defined.

(** X11.  A child forked after its parent has logged joins the parent's
    trace: the first logging call leaves the parent's context carrying
    the parent's span, and [Child] starts the child's span under it, with
    a span id of its own. *)
Theorem child_after_log_joins_parent_trace
    (w : World) (p : loc) (h : Eotel) (sev : Severity) (msg nm : string) :
  heap w !! p = Some h -> span h = None -> tracer h <> None -> instruments_ok h ->
  let sp := length (spans w) in
  let sc := S (length (spans w)) in
  exists w' hp hc t,
    (Revised.call (Some p) (CallLog sev msg);; Revised.Child (Some p) nm) w
      = Ok (Some (length (heap w))) w' /\
    heap w' !! p = Some hp /\ span hp = Some sp /\
    heap w' !! length (heap w) = Some hc /\ span hc = Some sc /\
    trace_of w' sp = Some t /\ trace_of w' sc = Some t /\
    (sp_parent <$> spans w' !! sc) = Some (Some sp).
Proof.
  intros Hp Hs Ht Hi sp sc. subst sp sc. rewrite call_log_is_log_R.
  destruct (Revised_log_fresh p h (severity_string sev) msg w Hp Hs Ht Hi)
    as (w1 & Hrun & Hh & Hlen & _); [apply severity_in_four|]. cbn zeta in Hh.
  assert (length (heap w1) = length (heap w)) as Hhl.
  { destruct (Revised_log_usable p h (severity_string sev) msg w Hp)
      as (w1' & Hrun' & s' & _ & _ & Hl & _);
      [by split; [right|]|apply severity_in_four|]. congruence. }
  unfold mbind, M_bind, bind. rewrite Hrun.
  rewrite (Revised_Child_exact p _ nm w1 Hh). cbv zeta. rewrite Hhl, Hlen.
  destruct (lookup_lt_is_Some_2 (spans w1) (length (spans w)) ltac:(lia)) as [spn Hspn].
  pose proof (lookup_lt_Some _ _ _ Hh) as Hlt.
  do 3 eexists. exists (sp_trace spn). split; [reflexivity|].
  cbn [heap set_heap spans set_spans]. unfold trace_of. cbn [spans set_spans set_heap].
  split; [by rewrite lookup_app_l|]. split; [done|].
  split; [rewrite <- Hhl; apply lookup_alloc|]. split; [done|].
  split; [by rewrite (lookup_app_l_Some _ _ _ _ Hspn)|].
  split.
  - rewrite list_lookup_middle by done. unfold joined_trace. cbn. by rewrite Hspn.
  - by rewrite list_lookup_middle.
Qed.

Lemma fresh_handle_instruments nm : instruments_ok (fresh_handle nm).
Proof. done. Qed.

Lemma child_after_log_joins_parent_trace_witness :
  let w := one_handle_world example_cfg (fresh_handle "checkout") in
  exists w' t,
    (Revised.call (Some 0%nat) (CallLog info "start");;
     Revised.Child (Some 0%nat) "payment") w = Ok (Some 1%nat) w' /\
    trace_of w' 0%nat = Some t /\ trace_of w' 1%nat = Some t.
Proof.
  intros w.
  destruct (child_after_log_joins_parent_trace w 0%nat (fresh_handle "checkout") info
              "start" "payment" eq_refl eq_refl (fresh_handle_tracer "checkout")
              (fresh_handle_instruments "checkout"))
    as (w' & hp & hc & t & Hrun & _ & _ & _ & _ & Ht1 & Ht2 & _).
  exists w', t. split; [exact Hrun|]. split; [exact Ht1|exact Ht2].
Defined.

(** ** Naming the span *)

(** X12.  [TraceName] renames the handle, and with it the span the first
    logging call starts; it never touches a span: renaming after the span
    was started leaves the span under its old name. *)
Theorem TraceName_names_the_span_to_come
    (w : World) (p : loc) (h : Eotel) (nm sev_msg : string) (sev : Severity) :
  heap w !! p = Some h ->
  Revised.TraceName (Some p) nm w =
    Ok (Some p) (set_heap (<[p := set_name nm h]> (heap w)) w) /\
  (span h = None -> tracer h <> None -> instruments_ok h ->
   exists w',
     (Revised.TraceName (Some p) nm;; Revised.call (Some p) (CallLog sev sev_msg)) w
       = Ok tt w' /\
     (sp_name <$> spans w' !! length (spans w)) = Some nm).
Proof.
  intros Hp.
  assert (Revised.TraceName (Some p) nm w =
          Ok (Some p) (set_heap (<[p := set_name nm h]> (heap w)) w)) as Hrun.
  { unfold Revised.TraceName. mrun. heap_simpl. reflexivity. }
  split; [done|]. intros Hs Ht Hi.
  unfold mbind, M_bind, bind. rewrite Hrun, call_log_is_log_R.
  assert (heap (set_heap (<[p := set_name nm h]> (heap w)) w) !! p = Some (set_name nm h))
    as Hp1 by (by apply (lookup_insert_same _ _ _ _ Hp)).
  destruct (Revised_log_fresh p (set_name nm h) (severity_string sev) sev_msg _ Hp1)
    as (w' & Hrun' & _ & _ & _ & _ & Hn & _); [done|done|done|apply severity_in_four|].
  exists w'. split; [exact Hrun'|]. exact Hn.
Qed.

Lemma TraceName_names_the_span_to_come_witness :
  let w := one_handle_world example_cfg (fresh_handle "checkout") in
  exists w',
    (Revised.TraceName (Some 0%nat) "checkout.v2";;
     Revised.call (Some 0%nat) (CallLog info "start")) w = Ok tt w' /\
    (sp_name <$> spans w' !! 0%nat) = Some "checkout.v2".
Proof.
  intros w.
  destruct (TraceName_names_the_span_to_come w 0%nat (fresh_handle "checkout")
              "checkout.v2" "start" info eq_refl) as [_ H].
  exact (H eq_refl (fresh_handle_tracer "checkout") (fresh_handle_instruments "checkout")).
Defined.

(** ** Span events, attributes and timers *)

(** X13.  While the handle has no span, [SpanEvent], [SetSpanAttr],
    [SetSpanError] and a whole timer ([Start] then [Stop]) do nothing at
    all, in both handle files: they do not start the span. *)
Theorem span_helpers_without_span_do_nothing
    (w : World) (p : loc) (h : Eotel) (nm key : string) (value : any)
    (kvs : list KeyValue) (e : error) :
  heap w !! p = Some h -> span h = None ->
  Revised.SpanEvent (Some p) nm kvs w = Ok tt w /\
  Revised.SetSpanAttr (Some p) key value w = Ok tt w /\
  Revised.SetSpanError (Some p) e w = Ok tt w /\
  (t ← Revised.Start (Some p) nm; Revised.Stop t) w = Ok tt w /\
  EotelGo.SpanEvent (Some p) nm kvs w = Ok tt w /\
  EotelGo.SetSpanAttr (Some p) key value w = Ok tt w /\
  EotelGo.SetSpanError (Some p) e w = Ok tt w /\
  (t ← EotelGo.Start (Some p) nm; EotelGo.Stop t) w = Ok tt w.
Proof.
  intros Hp Hs.
  unfold Revised.SpanEvent, Revised.SetSpanAttr, Revised.SetSpanError, Revised.Start,
    Revised.Stop, Revised.SpanEvent, EotelGo.SpanEvent, EotelGo.SetSpanAttr,
    EotelGo.SetSpanError, EotelGo.Start, EotelGo.Stop, EotelGo.SpanEvent.
  mrun. heap_simpl. rewrite Hs. by destruct e.
Qed.

Lemma span_helpers_without_span_do_nothing_witness :
  let w := one_handle_world example_cfg (fresh_handle "checkout") in
  (t ← Revised.Start (Some 0%nat) "db"; Revised.Stop t) w = Ok tt w.
Proof.
  intros w.
  destruct (span_helpers_without_span_do_nothing w 0%nat (fresh_handle "checkout")
              "db" "k" AnyNil [] None eq_refl eq_refl) as (_ & _ & _ & H & _).
  exact H.
Defined.



(** ** Fatal *)

Lemma bind_never_returns {A B} (m : M A) (k : A -> M B) w :
  (forall a w', returns (k a w') = false) -> returns ((m ≫= k) w) = false.
Proof.
  intros Hk. unfold mbind, M_bind, bind. destruct (m w); [apply Hk|done..].
Qed.

(** X15.  [Fatal] never returns to its caller, in either handle file and
    on any handle: it ends in a process exit or in a panic. *)
Theorem Fatal_never_returns (l : option loc) (msg : string) (w : World) :
  returns (Revised.Fatal l msg w) = false /\ returns (EotelGo.Fatal l msg w) = false.
Proof.
  split; unfold Revised.Fatal, EotelGo.Fatal;
    (apply bind_never_returns; intros _ w1;
     apply bind_never_returns; intros h w2;
     apply bind_never_returns; intros _ w3; reflexivity).
Qed.

(** X16.  On a usable handle whose logger is the zap logger, [Fatal] of
    the revised file writes its line and the process exits with status 1
    inside zap's [Fatal]: [endSpan] is not reached, so the span, started
    if need be, is neither flushed nor ended, and no metric is recorded. *)
Theorem Fatal_exits_before_the_flush (w : World) (p : loc) (h : Eotel) (msg : string) :
  heap w !! p = Some h -> usable h -> logger h = Some zap_L ->
  exists w' s,
    Revised.Fatal (Some p) msg w = Exited 1 w' /\
    (span <$> heap w' !! p) = Some (Some s) /\
    length (zap_out w') = S (length (zap_out w)) /\
    (ll_level <$> last (zap_out w')) = Some "fatal" /\
    calls_of w' s = calls_of w s /\
    metrics w' = metrics w.
Proof.
  intros Hp [Hst _] Hlg.
  destruct h as [c lg tr m sp lc dh fs ats e nm st ex]. cbn in Hst, Hlg. subst lg.
  unfold Revised.Fatal, Revised.log, Revised.startSpanIfNeeded, zap_switch, zap_Fatal.
  mrun. heap_simpl.
  destruct sp as [s|]; heap_simpl.
  - destruct (spans w !! s) eqn:Es; heap_simpl;
      (do 2 eexists; split; [reflexivity|]); heap_simpl;
      rewrite length_app, last_snoc; cbn; repeat split; try done; lia.
  - destruct Hst as [|Hst]; [done|]. destruct tr as [t|]; [|done]. heap_simpl.
    rewrite list_lookup_middle by done. heap_simpl.
    do 2 eexists. split; [reflexivity|]. heap_simpl.
    rewrite length_app, last_snoc. cbn. repeat split; try done; try lia.
    unfold calls_of. cbn. rewrite list_lookup_middle by done.
    by rewrite (proj2 (lookup_ge_None (spans w) (length (spans w))) ltac:(lia)).
Qed.

Lemma Fatal_exits_before_the_flush_witness :
  let w := one_handle_world example_cfg (fresh_handle "checkout") in
  exists w', Revised.Fatal (Some 0%nat) "out of disk" w = Exited 1 w' /\
             calls_of w' 0%nat = [].
Proof.
  intros w.
  destruct (Fatal_exits_before_the_flush w 0%nat (fresh_handle "checkout") "out of disk"
              eq_refl (fresh_handle_usable "checkout") eq_refl)
    as (w' & s & Hrun & Hs & _ & _ & Hc & _).
  exists w'. split; [exact Hrun|].
  assert (s = 0%nat) as ->.
  { vm_compute in Hrun. injection Hrun as <-. vm_compute in Hs. congruence. }
  exact Hc.
Defined.

(** * The export worker (loki.go) *)

(** X17.  With export enabled [sendLoki] posts the entry once; it
    returns nil exactly when the endpoint answered with a status below
    300, and an error for a transport failure or any other status.
    Nothing but the list of posts changes. *)
Theorem sendLoki_posts_once (entry : LokiEntry) (w : World) :
  EnableLoki (globalCfg w) = true ->
  exists r,
    sendLoki entry w = Ok r (set_loki_posts (loki_posts w ++ [entry]) w) /\
    (r = None <-> exists code, loki_status w = Some code /\ code < 300).
Proof.
  intros He. unfold sendLoki. munfold. rewrite He. cbn.
  destruct (loki_status w) as [code|] eqn:Ec; cbn.
  - destruct (300 <=? code) eqn:E; eexists; (split; [reflexivity|]).
    + apply Z.leb_le in E. split; [done|]. intros (c & Hc & Hlt). simplify_eq. lia.
    + apply Z.leb_gt in E. split; [|done]. intros _. by exists code.
  - eexists. split; [reflexivity|]. split; [done|]. by intros (c & Hc & _).
Qed.

Lemma sendLoki_posts_once_witness :
  exists r, sendLoki (mkLokiEntry ∅ "start") (empty_world example_cfg)
            = Ok r (set_loki_posts [mkLokiEntry ∅ "start"] (empty_world example_cfg)) /\
            (r = None <-> exists code, Some 204 = Some code /\ code < 300).
Proof.
  exact (sendLoki_posts_once (mkLokiEntry ∅ "start") (empty_world example_cfg) eq_refl).
Defined.

Lemma worker_step_exact w :
  worker_step w =
    Ok tt
      match logChan w with
      | [] => w
      | entry :: rest =>
          if EnableLoki (globalCfg w)
          then set_loki_posts (loki_posts w ++ [entry]) (set_logChan rest w)
          else set_logChan rest w
      end.
Proof.
  unfold worker_step, sendLoki. munfold. cbn.
  destruct (logChan w) as [|entry rest]; [done|]. cbn.
  destruct (EnableLoki (globalCfg w)); [|done]. cbn.
  destruct (loki_status w) as [code|]; [|done]. by destruct (300 <=? code).
Qed.

(** X18.  The worker takes the entries in the order they were queued
    and never stops on a failed send: after [n] turns of its loop the
    first [n] entries have left the queue and, with export enabled, each
    was posted once, in queue order, whatever the endpoint answered; with
    export disabled they are dropped without a post. *)
Theorem worker_drains_in_order (n : nat) (w : World) :
  exists w',
    worker_run n w = Ok tt w' /\
    logChan w' = drop n (logChan w) /\
    loki_posts w' =
      loki_posts w ++ (if EnableLoki (globalCfg w) then take n (logChan w) else []) /\
    globalCfg w' = globalCfg w /\ heap w' = heap w /\ spans w' = spans w.
Proof.
  revert w. induction n as [|n IH]; intros w.
  - exists w. cbn. destruct (EnableLoki (globalCfg w)); by rewrite app_nil_r.
  - cbn [worker_run]. unfold mbind, M_bind, bind. rewrite worker_step_exact.
    destruct (logChan w) as [|entry rest] eqn:Eq.
    + destruct (IH w) as (w' & Hrun & Hq & Hp & Hc & Hh & Hs).
      exists w'. rewrite Hrun, Hq, Hp, Eq. rewrite !drop_nil, !take_nil. done.
    + destruct (EnableLoki (globalCfg w)) eqn:Ee.
      * destruct (IH (set_loki_posts (loki_posts w ++ [entry]) (set_logChan rest w)))
          as (w' & Hrun & Hq & Hp & Hc & Hh & Hs).
        exists w'. rewrite Hrun. cbn in *. rewrite Ee in Hp.
        rewrite Hq, Hp, <- app_assoc. done.
      * destruct (IH (set_logChan rest w)) as (w' & Hrun & Hq & Hp & Hc & Hh & Hs).
        exists w'. rewrite Hrun. cbn in *. rewrite Ee in Hp. rewrite Hq, Hp. done.
Qed.

(** * Panic recovery and the middleware *)

Lemma usable_after_error h msg kvs fs :
  usable h -> usable (set_attrs kvs (set_fields fs (set_err (Some msg) h))).
Proof. done. Qed.

(** X19.  On a request whose context carries a usable handle, the
    deferred closure of the revised [RecoverPanic] handles the panic: it
    returns (the panic stops), the handle holds the error
    ["panic: <value>"], one line of severity error is written through
    the handle, and the request is aborted once, with status 500 and the
    body ["error": "internal server error"].  Outside a panic the
    closure does nothing. *)
Theorem RecoverPanic_with_handle_recovers
    (w : World) (p : loc) (h : Eotel) (c : gin_Context) (r : any) :
  ctx_logger (Request_Context c) = Some (Some p) ->
  heap w !! p = Some h -> usable h ->
  Revised.RecoverPanic c None w = Ok tt w /\
  exists w' h',
    Revised.RecoverPanic c (Some r) w = Ok tt w' /\
    heap w' !! p = Some h' /\ err h' = Some ("panic: " +:+ Sprintf_v r) /\
    aborts w' = aborts w ++ [AbortWithStatusJSON 500 "error" "internal server error"] /\
    length (heap w') = length (heap w) /\
    (logger h = Some zap_L ->
     exists l, zap_out w' = zap_out w ++ [l] /\
               ll_level l = "error" /\ ll_msg l = "unhandled panic").
Proof.
  intros Hc Hp Hu. split; [done|].
  unfold Revised.RecoverPanic, Revised.FromGin, Revised.FromContext. rewrite Hc.
  unfold Revised.Safe, Revised.Error.
  set (msg := "panic: " +:+ Sprintf_v r).
  unfold mbind, M_bind, bind, mret, M_ret, ret.
  rewrite (Revised_WithError_exact p h msg w Hp).
  set (h1 := set_attrs _ _). set (w1 := set_sentry _ _).
  assert (heap w1 !! p = Some h1) as Hp1
    by (subst w1; cbn; by apply (lookup_insert_same _ _ _ _ Hp)).
  destruct (Revised_log_usable p h1 "error" "unhandled panic" w1 Hp1)
    as (w2 & Hrun & s & _ & Hh & Hlen & _ & Hz & _ & _ & _ & _ & Hab & _);
    [by apply usable_after_error|unfold four_levels; set_solver|].
  rewrite Hrun. unfold SpanVal_call, trace_SpanFromContext, span_call, gin_abort, put_world.
  assert (length (heap w1) = length (heap w)) as Hl1
    by (subst w1; cbn; by rewrite length_insert).
  destruct (ctx_span (Request_Context c)); cbn;
    (do 2 eexists; split; [reflexivity|]; cbn;
     split; [exact Hh|]; split; [unfold after_log; by destruct (span h1)|];
     split; [by rewrite Hab|];
     split; [congruence|];
     intros Hlg; rewrite Hz; unfold written; change (logger h1) with (logger h);
     rewrite Hlg; by eexists).
Qed.

Lemma RecoverPanic_with_handle_recovers_witness :
  let w := one_handle_world example_cfg (fresh_handle "checkout") in
  let c := mk_gin_Context (Revised.Inject context_Background (Some 0%nat)) in
  exists w',
    defer_recover (Revised.RecoverPanic c) (panic (AnyString "boom")) w = Ok tt w' /\
    aborts w' = [AbortWithStatusJSON 500 "error" "internal server error"].
Proof.
  intros w c.
  destruct (RecoverPanic_with_handle_recovers w 0%nat (fresh_handle "checkout") c
              (AnyString "boom") eq_refl eq_refl (fresh_handle_usable "checkout"))
    as (_ & w' & h' & Hrun & _ & _ & Hab & _).
  exists w'. split; [exact Hrun|exact Hab].
Defined.

(** What [Middleware] sets up before it calls the rest of the chain. *)
Lemma Middleware_exact nm rq c next w :
  EotelGo.Middleware nm rq c next w =
    defer_call (span_call (Some (length (spans w))) End)
      (next (mk_gin_Context (mkContext (Some (length (spans w)))
                                       (Some (Some (length (heap w)))))))
      (middleware_world nm rq c w).
Proof.
  unfold EotelGo.Middleware, EotelGo.New, EotelGo.WithField, EotelGo.Inject, initMetrics,
    defer_call, joined_trace, middleware_world, middleware_handle.
  mrun. heap_simpl.
  unfold accumulate, joined_trace. cbn.
  by destruct (next _ _).
Qed.

(** X20.  [Middleware] starts the request span, named by method and
    route, makes a handle on the context that carries this span, gives it
    the fields [method], [path], [ip], [ua] in this order, and hands the
    rest of the chain a request context from which [FromGin] returns that
    very handle.  The handle has not started a span of its own.  When the
    chain returns, the request span is ended. *)
Theorem Middleware_hands_over_the_handle
    (nm : string) (rq : RequestInfo) (c : gin_Context) (w : World) :
  let s := length (spans w) in
  let q := length (heap w) in
  let c' := mk_gin_Context (mkContext (Some s) (Some (Some q))) in
  let w1 := middleware_world nm rq c w in
  exists hq,
    heap w1 !! q = Some hq /\
    map Field_key (fields hq) = ["method"; "path"; "ip"; "ua"] /\
    keys (attrs hq) = ["method"; "path"; "ip"; "ua"] /\
    span hq = None /\ ctx_span (ctx hq) = Some s /\
    (sp_name <$> spans w1 !! s) = Some (Method rq +:+ " " +:+ FullPath rq) /\
    (sp_parent <$> spans w1 !! s) = Some (ctx_span (Request_Context c)) /\
    (forall l nm', EotelGo.FromGin l c' nm' w1 = Ok (Some q) w1) /\
    forall next w2,
      next c' w1 = Ok tt w2 ->
      EotelGo.Middleware nm rq c next w = Ok tt (span_ended s w2).
Proof.
  intros s q c' w1. subst s q c' w1. exists (middleware_handle nm rq c w).
  split; [apply lookup_alloc|].
  split; [reflexivity|]. split; [reflexivity|]. split; [reflexivity|]. split; [reflexivity|].
  split; [unfold middleware_world; cbn [spans set_spans set_heap];
          by rewrite list_lookup_middle|].
  split; [unfold middleware_world; cbn [spans set_spans set_heap];
          by rewrite list_lookup_middle|].
  split; [done|].
  intros next w2 Hnext. rewrite Middleware_exact. unfold defer_call. by rewrite Hnext.
Qed.

Lemma Middleware_hands_over_the_handle_witness :
  let w := empty_world example_cfg in
  let rq := mkRequestInfo "GET" "/cart/:id" "/cart/7" "10.0.0.1" "curl" in
  let c := mk_gin_Context context_Background in
  EotelGo.Middleware "http" rq c (fun _ => (mret tt : M unit)) w =
    Ok tt (span_ended 0%nat (middleware_world "http" rq c w)).
Proof.
  intros w rq c.
  destruct (Middleware_hands_over_the_handle "http" rq c w)
    as (hq & _ & _ & _ & _ & _ & _ & _ & _ & H).
  exact (H (fun _ => (mret tt : M unit)) (middleware_world "http" rq c w) eq_refl).
Defined.

(** X21.  [Middleware] does not recover a panic of the chain: the
    statement [defer logger.RecoverPanic(c)] only builds the recovering
    closure, it never runs it.  A panic raised by the rest of the chain
    leaves [Middleware] as the same panic; between them the middleware
    logs nothing and does not abort the request; the request span is
    still ended. *)
Theorem Middleware_does_not_recover
    (nm : string) (rq : RequestInfo) (c : gin_Context) (w : World)
    (next : gin_Context -> M unit) (v : any) (w2 : World) :
  let s := length (spans w) in
  let q := length (heap w) in
  let c' := mk_gin_Context (mkContext (Some s) (Some (Some q))) in
  let w1 := middleware_world nm rq c w in
  next c' w1 = Panicked v w2 ->
  EotelGo.Middleware nm rq c next w = Panicked v (span_ended s w2) /\
  aborts w1 = aborts w /\ zap_out w1 = zap_out w /\
  aborts (span_ended s w2) = aborts w2 /\ zap_out (span_ended s w2) = zap_out w2.
Proof.
  intros s q c' w1 Hnext. subst s q c' w1. split; [|done].
  rewrite Middleware_exact. unfold defer_call. by rewrite Hnext.
Qed.

Lemma Middleware_does_not_recover_witness :
  let w := empty_world example_cfg in
  let rq := mkRequestInfo "GET" "/cart/:id" "/cart/7" "10.0.0.1" "curl" in
  exists w',
    EotelGo.Middleware "http" rq (mk_gin_Context context_Background)
      (fun _ => panic (AnyString "boom")) w = Panicked (AnyString "boom") w' /\
    aborts w' = [] /\ zap_out w' = [].
Proof.
  intros w rq.
  destruct (Middleware_does_not_recover "http" rq (mk_gin_Context context_Background) w
              (fun _ => panic (AnyString "boom")) (AnyString "boom") _ eq_refl)
    as (Hrun & _ & _ & Ha & Hz).
  eexists. split; [exact Hrun|]. split; [exact Ha|exact Hz].
Defined.

(** * Initialisation (init.go) *)

(** X22.  [InitEOTEL] replaces the global configuration before anything
    can fail: whatever the outcome, in both init files, the configuration
    in force afterwards is the one passed in, and nothing else of the
    handle's world has changed. *)
Theorem InitEOTEL_sets_config_even_on_failure
    (env : InitEnv) (c : Config) (w : World) (pr : Providers) :
  (InitEOTEL env c w pr).2.1 = set_globalCfg c w /\
  (InitEOTEL_part_000 env c w pr).2.1 = set_globalCfg c w.
Proof.
  unfold InitEOTEL, InitEOTEL_part_000.
  destruct (resource_New env), (EnableTracing c), (otlptracegrpc_New env),
    (EnableMetrics c), (otlpmetricgrpc_New env); done.
Qed.

(** X23.  [InitEOTEL] fails exactly when [resource.New] fails, or tracing
    is enabled and the trace exporter fails, or metrics are enabled and
    the metric exporter fails; a failing [sentry.Init] is only printed.
    It returns a shutdown function exactly when it does not fail.  The
    same holds of both init files. *)
Theorem InitEOTEL_fails_iff
    (env : InitEnv) (c : Config) (w : World) (pr : Providers) :
  let fails :=
    resource_New env ≠ None \/
    (EnableTracing c = true /\ otlptracegrpc_New env ≠ None) \/
    (EnableMetrics c = true /\ otlpmetricgrpc_New env ≠ None) in
  ((InitEOTEL env c w pr).1.2 ≠ None <-> fails) /\
  ((InitEOTEL env c w pr).1.1 = None <-> fails) /\
  ((InitEOTEL_part_000 env c w pr).1.2 ≠ None <-> fails) /\
  ((InitEOTEL_part_000 env c w pr).1.1 = None <-> fails).
Proof.
  unfold InitEOTEL, InitEOTEL_part_000.
  destruct (resource_New env), (EnableTracing c), (otlptracegrpc_New env),
    (EnableMetrics c), (otlpmetricgrpc_New env); cbn; naive_solver.
Qed.

(** X24.  A late failure leaves the earlier setup in place: when the
    metric exporter fails after tracing was set up, [InitEOTEL] of
    src/init.go returns the error, the tracer provider stays installed and
    [globalTracer] stays set, while [globalMeter] is not set.  On success
    the tracer (meter) provider is installed exactly when tracing
    (metrics) is enabled, [globalTracer] and [globalMeter] are set in
    either case, and the shutdown function returns nil and flushes sentry
    exactly when sentry is enabled. *)
Theorem InitEOTEL_installs
    (env : InitEnv) (c : Config) (w : World) (pr : Providers) :
  tracer_provider_set pr = false -> meter_provider_set pr = false ->
  globalMeter pr = None ->
  resource_New env = None -> otlptracegrpc_New env = None ->
  let r := InitEOTEL env c w pr in
  (EnableTracing c = true -> EnableMetrics c = true -> otlpmetricgrpc_New env ≠ None ->
   r.1.2 ≠ None /\ tracer_provider_set r.2.2 = true /\ meter_provider_set r.2.2 = false /\
   globalTracer r.2.2 = Some (otel_Tracer (ServiceName c)) /\ globalMeter r.2.2 = None) /\
  (otlpmetricgrpc_New env = None ->
   exists sd, r.1 = (Some sd, None) /\
     tracer_provider_set r.2.2 = EnableTracing c /\
     meter_provider_set r.2.2 = EnableMetrics c /\
     globalTracer r.2.2 = Some (otel_Tracer (ServiceName c)) /\
     globalMeter r.2.2 = Some (otel_Meter (ServiceName c)) /\
     forall pr', (run_Shutdown sd pr').1 = None /\
       sentry_flushes (run_Shutdown sd pr').2 =
         if EnableSentry c then S (sentry_flushes pr') else sentry_flushes pr').
Proof.
  intros Ht Hm Hg Hr Hte. unfold InitEOTEL, init_sentry. rewrite Hr, Hte. split.
  - intros -> -> Hme. destruct (otlpmetricgrpc_New env); [|done]. cbn. by rewrite Hg.
  - intros ->. exists (flush_when (EnableSentry c)).
    destruct (EnableTracing c), (EnableMetrics c), (EnableSentry c), (sentry_Init env);
      cbn; rewrite ?Ht, ?Hm; done.
Qed.

Lemma InitEOTEL_installs_witness :
  let env := mkInitEnv None None (Some "connection refused") None in
  let pr := mkProviders false false None None [] 0 in
  let r := InitEOTEL env example_cfg (empty_world quiet_cfg) pr in
  r.1.2 ≠ None /\ tracer_provider_set r.2.2 = true /\ meter_provider_set r.2.2 = false.
Proof.
  intros env pr r.
  destruct (InitEOTEL_installs env example_cfg (empty_world quiet_cfg) pr
              eq_refl eq_refl eq_refl eq_refl eq_refl) as [H _].
  destruct (H eq_refl eq_refl ltac:(discriminate)) as (H1 & H2 & H3 & _).
  split; [exact H1|]. split; [exact H2|exact H3].
Defined.

(** * src/eotel.go never sets a span status *)

Lemma marks_error_app cs1 cs2 :
  marks_error (cs1 ++ cs2) = marks_error cs1 || marks_error cs2.
Proof. unfold marks_error. apply existsb_app. Qed.

Ltac status_frame_tac :=
  intros w s; munfold; cbn -[lookup insert alter length bool_decide calls_of];
  repeat (case_match; simplify_eq; cbn -[lookup insert alter length bool_decide calls_of]);
  try done.

Lemma status_frame_load l : status_frame (load l).
Proof. unfold load. status_frame_tac. Qed.
Lemma status_frame_store l f : status_frame (store l f).
Proof. unfold store. status_frame_tac. Qed.
Lemma status_frame_cfg : status_frame cfg.
Proof. status_frame_tac. Qed.
Lemma status_frame_zap_switch lg level msg fs : status_frame (zap_switch lg level msg fs).
Proof. unfold zap_switch, zap_Fatal, zap_write. status_frame_tac. Qed.
Lemma status_frame_counter_Add c n level : status_frame (counter_Add c n level).
Proof. unfold counter_Add. status_frame_tac. Qed.
Lemma status_frame_histogram_Record x d level : status_frame (histogram_Record x d level).
Proof. unfold histogram_Record. status_frame_tac. Qed.
Lemma status_frame_Exporter_Send e level msg t s' :
  status_frame (Exporter_Send e level msg t s').
Proof. unfold Exporter_Send. status_frame_tac. Qed.
Lemma status_frame_Exporter_CaptureError x e tags extras :
  status_frame (Exporter_CaptureError x e tags extras).
Proof. unfold Exporter_CaptureError, CaptureError. status_frame_tac. Qed.
Lemma status_frame_span_SpanContext s' : status_frame (span_SpanContext s').
Proof. unfold span_SpanContext. status_frame_tac. Qed.

Lemma status_frame_tracer_Start t c nm : status_frame (tracer_Start t c nm).
Proof.
  intros w s. unfold tracer_Start. destruct t; [|done]. cbn -[lookup].
  unfold calls_of. cbn -[lookup].
  destruct (decide (s < length (spans w))%nat) as [Hlt|Hge].
  - by rewrite lookup_app_l.
  - rewrite (proj2 (lookup_ge_None (spans w) s)) by lia.
    destruct (decide (s = length (spans w))) as [->|Hne].
    + by rewrite list_lookup_middle.
    + rewrite lookup_app_r by lia.
      destruct (s - length (spans w))%nat as [|k] eqn:E; [lia|done].
Qed.

Lemma status_frame_span_call s' c :
  sets_status c = false -> status_frame (span_call s' c).
Proof.
  intros Hc w s. unfold span_call. destruct s' as [i|]; [|done]. cbn -[lookup alter].
  unfold calls_of. cbn -[lookup alter].
  destruct (decide (i = s)) as [->|Hne].
  - rewrite list_lookup_alter_eq. destruct (spans w !! s); [|done]. cbn.
    rewrite marks_error_app. cbn. unfold sets_status in Hc. destruct c; try done;
      by rewrite orb_false_r.
  - by rewrite list_lookup_alter_ne.
Qed.

Create HintDb status_frame.
#[local] Hint Resolve status_frame_load status_frame_store status_frame_cfg
  status_frame_zap_switch status_frame_counter_Add status_frame_histogram_Record
  status_frame_Exporter_Send status_frame_Exporter_CaptureError
  status_frame_span_SpanContext status_frame_tracer_Start : status_frame.

Lemma inv_status_frame {A} w0 (m : M A) : status_frame m -> inv (status_as_in w0) m.
Proof.
  intros Hm w Hw.
  assert (status_as_in w0 (world_of (m w))) as H.
  { intros s. rewrite Hm. apply Hw. }
  by destruct (m w).
Qed.

Ltac status_leaf :=
  apply inv_status_frame;
  first [ solve [auto with status_frame]
        | apply status_frame_span_call; reflexivity ].

Ltac status_all := repeat inv_step_with status_leaf.

Lemma EotelGo_log_status w0 l level msg : inv (status_as_in w0) (EotelGo.log l level msg).
Proof.
  unfold EotelGo.log, EotelGo.startSpanIfNeeded, EotelGo.endSpan. status_all.
Qed.

Lemma EotelGo_call_status w0 l c : inv (status_as_in w0) (EotelGo.call l c).
Proof.
  destruct c as [k v|m|e|[] msg|msg]; cbn [EotelGo.call];
    try apply EotelGo_log_status.
  - unfold EotelGo.WithField. status_all.
  - unfold EotelGo.WithFields. apply inv_bind; [|intros; apply inv_ret].
    apply inv_bind; [|intros; apply inv_ret].
    induction m as [|[k v] m IH]; cbn [EotelGo.WithFields_range]; [apply inv_ret|].
    apply inv_bind; [|by intros]. unfold EotelGo.WithField. status_all.
  - unfold EotelGo.WithError. status_all.
  - unfold EotelGo.Fatal. apply inv_bind; [apply EotelGo_log_status|intros _].
    status_all.
Qed.

(** X25.  No call on a handle of src/eotel.go ever sets a span status:
    over any sequence of calls, on any handle and however the sequence
    ends, every span is marked errored afterwards exactly if it was
    before.  (The revised file marks the handle's span whenever an error
    is recorded, see C6.) *)
Theorem EotelGo_never_sets_span_status
    (w : World) (l : option loc) (cs : list Call) (s : SpanRef) :
  marks_error (calls_of (world_of (EotelGo.calls l cs w)) s) = marks_error (calls_of w s).
Proof.
  assert (inv (status_as_in w) (EotelGo.calls l cs)) as H.
  { induction cs as [|c cs IH]; cbn [EotelGo.calls]; [apply inv_ret|].
    apply inv_bind; [apply EotelGo_call_status|by intros]. }
  apply (inv_world_of _ _ w H). by intros s'.
Qed.

(** * More on the revised handle *)


Lemma Revised_log_marks_error_iff_recorded_witness :
  let h := set_span (Some 0%nat) (set_err (Some "declined") (fresh_handle "payment")) in
  let w := mkWorld example_cfg [h] [mkSpan "payment" 0 None []] 1000 [] [] []
             (Some 204) [] [] [] [] in
  exists w' added,
    Revised.call (Some 0%nat) (CallLog info "charged") w = Ok tt w' /\
    calls_of w' 0%nat = added /\ marks_error added = true.
Proof.
  intros h w.
  destruct (Revised_log_marks_error_iff_recorded 0%nat h 0%nat info "charged" w
              eq_refl eq_refl ltac:(cbn; lia) (fresh_handle_instruments "payment"))
    as (w' & added & Hrun & Hc & Hm & _).
  exists w', added. split; [exact Hrun|]. split; [exact Hc|exact Hm].
Defined.

(** X28.  In the revised file field calls with an empty key are dropped:
    a [WithFields] whose keys are all empty, and any number of
    [WithField] calls with the empty key, leave the handle and the world
    as they were. *)
Theorem Revised_empty_keys_are_dropped
    (p : loc) (h : Eotel) (vs : list any) (w : World) :
  heap w !! p = Some h ->
  Revised.WithFields (Some p) (map (fun v => ("", v)) vs) w = Ok (Some p) w /\
  Revised.calls (Some p) (map (CallWithField "") vs) w = Ok tt w.
Proof.
  intros Hp. split.
  - unfold Revised.WithFields, mbind, M_bind, bind.
    rewrite (Revised_WithFields_range_exact p _ h w Hp).
    assert (forall l : list any, field_fields (map (fun v => ("", v)) l) = []
                                 /\ field_attrs (map (fun v => ("", v)) l) = []) as Hnil.
    { induction l as [|v l [IH1 IH2]]; [done|]. cbn [map].
      rewrite field_fields_cons, field_attrs_cons, IH1, IH2. done. }
    destruct (Hnil vs) as [-> ->]. rewrite accumulate_nil.
    by rewrite set_heap_insert_id.
  - clear Hp. induction vs as [|v vs IH]; [done|].
    cbn [map Revised.calls]. unfold mbind, M_bind, bind.
    cbn [Revised.call]. unfold mbind, M_bind, bind.
    rewrite Revised_WithField_empty_key. exact IH.
Qed.

Lemma Revised_empty_keys_are_dropped_witness :
  let w := one_handle_world example_cfg (fresh_handle "checkout") in
  Revised.calls (Some 0%nat) (map (CallWithField "") [AnyInt 1; AnyString "x"]) w = Ok tt w.
Proof.
  intros w.
  destruct (Revised_empty_keys_are_dropped 0%nat (fresh_handle "checkout")
              [AnyInt 1; AnyString "x"] w eq_refl) as [_ H].
  exact H.
Defined.

(** X29.  The revised [WithError] with a non-nil error returns on every
    allocated handle, a fresh one without exporter included: the error
    becomes the handle's error, an error field and an [error] attribute
    are appended, and nothing reaches the error reporter unless the handle
    has an exporter and sentry is enabled. *)
Theorem Revised_WithError_records
    (p : loc) (h : Eotel) (msg : string) (w : World) :
  heap w !! p = Some h ->
  exists w' h',
    Revised.WithError (Some p) (Some msg) w = Ok (Some p) w' /\
    heap w' !! p = Some h' /\ err h' = Some msg /\
    fields h' = fields h ++ [zap_Error msg] /\
    attrs h' = attrs h ++ [attribute_String "error" msg] /\
    span h' = span h /\ spans w' = spans w /\
    (exporter h = None \/ EnableSentry (globalCfg w) = false -> sentry w' = sentry w) /\
    (exporter h ≠ None -> EnableSentry (globalCfg w) = true ->
     sentry w' = sentry w ++ [mkSentryEvent msg ∅ {[ "error" := msg ]}]).
Proof.
  intros Hp. rewrite (Revised_WithError_exact p h msg w Hp).
  do 2 eexists. split; [reflexivity|]. cbn -[bool_decide].
  split; [by apply (lookup_insert_same _ _ _ _ Hp)|].
  repeat split; try done.
  - intros [He|He].
    + rewrite bool_decide_eq_false_2 by (by intros ?). cbn. by rewrite app_nil_r.
    + rewrite He, andb_false_r. by rewrite app_nil_r.
  - intros He Hs. by rewrite bool_decide_eq_true_2, Hs.
Qed.

Lemma Revised_WithError_records_witness :
  let w := one_handle_world example_cfg (fresh_handle "checkout") in
  exists w' h',
    Revised.WithError (Some 0%nat) (Some "boom") w = Ok (Some 0%nat) w' /\
    heap w' !! 0%nat = Some h' /\ err h' = Some "boom" /\ sentry w' = [].
Proof.
  intros w.
  destruct (Revised_WithError_records 0%nat (fresh_handle "checkout") "boom" w eq_refl)
    as (w' & h' & Hrun & Hp & He & _ & _ & _ & _ & Hs & _).
  exists w', h'. split; [exact Hrun|]. split; [exact Hp|]. split; [exact He|].
  exact (Hs (or_introl eq_refl)).
Defined.

(** X30.  [WithTracer] ends the span it starts however the callback
    ends: the callback runs on a context carrying the new span, its
    result (or its panic) is what [WithTracer] gives back, and the span
    is ended once in both cases, by the deferred [span.End].  The handle's
    own span is not involved and the handle is not changed.  On a handle
    without tracer [WithTracer] panics before the callback runs. *)
Theorem WithTracer_ends_its_span
    (w : World) (p : loc) (h : Eotel) (nm : string) (fn : Context -> M error) :
  heap w !! p = Some h ->
  let s := length (spans w) in
  let c' := mkContext (Some s) (ctx_logger (ctx h)) in
  let w1 := set_spans (spans w ++ [mkSpan nm (joined_trace w (ctx h) s) (ctx_span (ctx h)) []]) w in
  (tracer h = None -> Revised.WithTracer (Some p) nm fn w = Panicked nil_dereference w) /\
  (tracer h ≠ None ->
   (forall e w2, fn c' w1 = Ok e w2 ->
      Revised.WithTracer (Some p) nm fn w = Ok e (span_ended s w2)) /\
   (forall v w2, fn c' w1 = Panicked v w2 ->
      Revised.WithTracer (Some p) nm fn w = Panicked v (span_ended s w2)) /\
   (forall k w2, fn c' w1 = Exited k w2 ->
      Revised.WithTracer (Some p) nm fn w = Exited k w2)).
Proof.
  intros Hp s c' w1. subst s c' w1.
  unfold Revised.WithTracer, mbind, M_bind, bind, load, tracer_Start, defer_call.
  rewrite Hp. split.
  - by intros ->.
  - intros Ht. destruct (tracer h) as [t|]; [clear Ht|done].
    cbn [fst snd]. unfold joined_trace.
    repeat split; intros ? w2 ->; reflexivity.
Qed.

Lemma WithTracer_ends_its_span_witness :
  let w := one_handle_world example_cfg (fresh_handle "checkout") in
  exists w',
    Revised.WithTracer (Some 0%nat) "step" (fun _ => panic (AnyString "boom")) w
      = Panicked (AnyString "boom") w' /\
    calls_of w' 0%nat = [End].
Proof.
  intros w.
  destruct (WithTracer_ends_its_span w 0%nat (fresh_handle "checkout") "step"
              (fun _ => panic (AnyString "boom")) eq_refl) as [_ H].
  destruct (H (fresh_handle_tracer "checkout")) as (_ & Hp & _).
  eexists. split; [exact (Hp (AnyString "boom") _ eq_refl)|reflexivity].
Defined.
